(** * ez-hook: the request delivery engine and the webhook size checks

    A shallow embedding of [RequestClient] (retry loop, backoff, response
    classification, timeout wiring) and of [Webhook.validate] /
    [Webhook.send], with the properties of the delivery engine proved over
    it.

    Conventions of the embedding:
    - JavaScript numbers that carry durations are exact rationals ([Q]);
      rounding to the nearest double is not modelled.  The result of
      [Number.parseFloat] keeps the three-way split NaN / infinite /
      finite that the code tests.
    - The retry counter is a natural number (it starts at 0 and is only
      incremented or reset); [maxRetries] and HTTP statuses are integers.
    - An [async] function is the sequential state-passing function of its
      body; [await delay(s)] is recorded in the world as a timer request.
    - The network and [Math.random] are oracles indexed by the number of
      calls made so far.  An attempt is what the [try] block of [send]
      observes: a response whose text was read, or a thrown value.
    - The payload is serialisable: [JSON.stringify] is a total function. *)

From Stdlib Require Import ZArith QArith Qminmax Qround Lqa Lia Bool List.
From Stdlib Require Import String Ascii DecimalString.
From stdpp Require Import gmap strings.
Import ListNotations.

Local Open Scope Z_scope.

(** ** Platform values and functions used by the client *)

Module JS.

(** A JavaScript number as far as the code looks at it. *)
Inductive number :=
| NaN
| Infinity (negative : bool)
| Fin (q : Q).

(** [Number.isFinite] on a value that may be [undefined]. *)
Definition isFinite (x : option number) : bool :=
  match x with
  | Some (Fin _) => true
  | _ => false
  end.

(** Truthiness of a number: neither NaN nor (plus or minus) zero. *)
Definition truthy_number (x : number) : bool :=
  match x with
  | NaN => false
  | Infinity _ => true
  | Fin q => negb (Qeq_bool q 0)
  end.

(** Truthiness of a string: non-empty. *)
Definition truthy_string (s : string) : bool :=
  match s with
  | EmptyString => false
  | String _ _ => true
  end.

(** [a || b] on strings. *)
Definition or_string (a b : string) : string :=
  if truthy_string a then a else b.

(** [s || undefined]. *)
Definition or_undefined (s : string) : option string :=
  if truthy_string s then Some s else None.

(** [a ?? b]. *)
Definition nullish {A} (a : option A) (b : option A) : option A :=
  match a with
  | Some _ => a
  | None => b
  end.

(** *** [Number.parseFloat] *)

Definition is_white_space (c : ascii) : bool :=
  let n := nat_of_ascii c in
  (Nat.eqb n 9 || Nat.eqb n 10 || Nat.eqb n 11 || Nat.eqb n 12
   || Nat.eqb n 13 || Nat.eqb n 32)%bool.

Fixpoint trim_start (s : string) : string :=
  match s with
  | String c r => if is_white_space c then trim_start r else s
  | EmptyString => s
  end.

Definition digit_value (c : ascii) : option Z :=
  let n := nat_of_ascii c in
  if (Nat.leb 48 n && Nat.leb n 57)%bool then Some (Z.of_nat (n - 48)) else None.

(** Reads the longest run of decimal digits: its value when appended to
    [acc], the number of digits read, and the rest of the string. *)
Fixpoint read_digits (s : string) (acc : Z) (count : nat) : Z * nat * string :=
  match s with
  | String c r =>
      match digit_value c with
      | Some d => read_digits r (10 * acc + d) (S count)
      | None => (acc, count, s)
      end
  | EmptyString => (acc, count, s)
  end.

(** The optional exponent part [e±ddd]; 0 when it is absent or has no
    digit (the prefix then ends before the [e]). *)
Definition read_exponent (s : string) : Z :=
  match s with
  | String c r =>
      if (Ascii.eqb c "e" || Ascii.eqb c "E")%bool then
        match r with
        | String sg r' =>
            if Ascii.eqb sg "-" then
              let '(v, n, _) := read_digits r' 0 0 in
              if Nat.eqb n 0 then 0 else - v
            else if Ascii.eqb sg "+" then
              let '(v, n, _) := read_digits r' 0 0 in
              if Nat.eqb n 0 then 0 else v
            else
              let '(v, n, _) := read_digits r 0 0 in
              if Nat.eqb n 0 then 0 else v
        | EmptyString => 0
        end
      else 0
  | EmptyString => 0
  end.

Definition pow10 (e : Z) : Q := Qpower 10 e.

(** Largest magnitude that still rounds to a finite double, and the
    largest magnitude that rounds to zero. *)
Definition overflow_threshold : Q := inject_Z (2 ^ 1024 - 2 ^ 970).
Definition underflow_threshold : Q := Qpower 2 (-1075).

Definition round_class (negative : bool) (q : Q) : number :=
  if Qle_bool overflow_threshold q then Infinity negative
  else if Qle_bool q underflow_threshold then Fin 0
  else Fin (if negative then - q else q).

(** The unsigned part of a [StrDecimalLiteral] prefix. *)
Definition parse_unsigned (negative : bool) (s : string) : number :=
  if String.prefix "Infinity" s then Infinity negative
  else
    let '(iv, ic, r1) := read_digits s 0 0 in
    let '(mant, fc, r2) :=
      match r1 with
      | String c r =>
          if Ascii.eqb c "." then
            let '(v, n, r') := read_digits r iv 0 in
            if (Nat.eqb ic 0 && Nat.eqb n 0)%bool then (iv, 0%nat, r1)
            else (v, n, r')
          else (iv, 0%nat, r1)
      | EmptyString => (iv, 0%nat, r1)
      end in
    if (Nat.eqb ic 0 && Nat.eqb fc 0)%bool then NaN
    else
      let e := read_exponent r2 in
      round_class negative (inject_Z mant * pow10 (e - Z.of_nat fc)).

Definition parseFloat (input : string) : number :=
  match trim_start input with
  | String c r =>
      if Ascii.eqb c "-" then parse_unsigned true r
      else if Ascii.eqb c "+" then parse_unsigned false r
      else parse_unsigned false (String c r)
  | EmptyString => NaN
  end.

End JS.

(** ** RequestClient: data *)

Inductive Method := GET | POST | PATCH.

Record RetryConfig := {
  maxRetries : Z;
  baseDelay : Q;
  maxDelay : Q
}.

(** [Partial<RetryConfig>]. *)
Record PartialRetryConfig := {
  maxRetries_opt : option Z;
  baseDelay_opt : option Q;
  maxDelay_opt : option Q
}.

Record RequestResult := {
  ok : bool;
  status : Z;
  retryAfter : option Q;
  bodyText : option string;
  error : option string
}.

(** An [AbortSignal], seen from one attempt: the instant (milliseconds
    after the attempt starts) at which it is aborted, if ever. *)
Record AbortSignal := { aborts_at : option Q }.

(** The third argument of [send]. *)
Record RequestInit := {
  signal : option AbortSignal;
  headers : option (gmap string string);
  timeoutMs : option Q
}.

(** What [fetch] is called with. *)
Record Request := {
  req_url : string;
  req_method : Method;
  req_headers : gmap string string;
  req_body : option string;
  req_signal : option AbortSignal
}.

(** A [Response]; header names are stored in lower case, as [Headers]
    normalises them. *)
Record Response := {
  resp_status : Z;
  resp_statusText : string;
  resp_text : string;
  resp_headers : gmap string string
}.

(** [response.ok] is the platform's test "status is in 200..299". *)
Definition resp_ok (r : Response) : bool :=
  (200 <=? resp_status r) && (resp_status r <=? 299).

(** A value caught by [catch (_error)]. *)
Inductive Thrown :=
| ThrownError (message : string)
| ThrownValue (truthy : bool) (as_string : string).

(** One pass through the [try] block: either the response was received
    and its text read, or something threw on the way. *)
Inductive Attempt :=
| Responded (r : Response)
| Threw (e : Thrown).

Record RequestClient := {
  webhookUrl : string;
  retryCount : nat;
  retryConfig : RetryConfig
}.

Definition DEFAULT_RETRY_CONFIG : RetryConfig :=
  {| maxRetries := 3; baseDelay := 1000; maxDelay := 60000 |}.

(** [{ ...DEFAULT_RETRY_CONFIG, ...retryConfig }] *)
Definition merge_config (d : RetryConfig) (p : option PartialRetryConfig) : RetryConfig :=
  match p with
  | None => d
  | Some p =>
      {| maxRetries := default (maxRetries d) (maxRetries_opt p);
         baseDelay := default (baseDelay d) (baseDelay_opt p);
         maxDelay := default (maxDelay d) (maxDelay_opt p) |}
  end.

Definition new_RequestClient (url : string) (cfg : option PartialRetryConfig) : RequestClient :=
  {| webhookUrl := url;
     retryCount := 0;
     retryConfig := merge_config DEFAULT_RETRY_CONFIG cfg |}.

(** The world outside the instance: the network calls made so far (latest
    first), the timer delays awaited through [delay] (milliseconds, latest
    first), the number of [Math.random] draws, and the timeout timers that
    are armed and not yet cleared. *)
Record World := {
  requests : list Request;
  sleeps : list Q;
  draws : nat;
  armed : list Q
}.

Definition calls (w : World) : nat := length (requests w).

Record St := { this : RequestClient; world : World }.

(** ** A state monad for the method bodies *)

Definition M (A : Type) : Type := St -> A * St.

Definition ret {A} (a : A) : M A := fun s => (a, s).

Definition bind {A B} (m : M A) (k : A -> M B) : M B :=
  fun s => let '(a, s') := m s in k a s'.

Declare Scope js_scope.
Delimit Scope js_scope with js.
Notation "x <- c1 ;; c2" := (bind c1 (fun x => c2))
  (at level 100, c1 at next level, right associativity) : js_scope.
Notation "c1 ;;; c2" := (bind c1 (fun _ => c2))
  (at level 100, right associativity) : js_scope.

Definition get_this : M RequestClient := fun s => (this s, s).

Definition set_retryCount (n : nat) : M unit :=
  fun s =>
    (tt, {| this := {| webhookUrl := webhookUrl (this s);
                       retryCount := n;
                       retryConfig := retryConfig (this s) |};
            world := world s |}).

Definition modify_world (f : World -> World) : M unit :=
  fun s => (tt, {| this := this s; world := f (world s) |}).

(** ** RequestClient: methods *)

Section Engine.

(** The payload type, its serialisation, and the two oracles: the outcome
    of the [k]-th network call and the value of the [k]-th
    [Math.random()]. *)
Context {Data : Type}.
Variable JSON_stringify : Data -> string.
Variable network : nat -> Request -> Attempt.
Variable Math_random : nat -> Q.

Local Open Scope js_scope.

Definition fetch (req : Request) : M Attempt :=
  fun s =>
    (network (calls (world s)) req,
     {| this := this s;
        world := {| requests := req :: requests (world s);
                    sleeps := sleeps (world s);
                    draws := draws (world s);
                    armed := armed (world s) |} |}).

Definition random : M Q :=
  fun s =>
    (Math_random (draws (world s)),
     {| this := this s;
        world := {| requests := requests (world s);
                    sleeps := sleeps (world s);
                    draws := S (draws (world s));
                    armed := armed (world s) |} |}).

(** [delay(second)]: [setTimeout(resolve, second * 1000)], awaited. *)
Definition delay (second : Q) : M unit :=
  modify_world (fun w =>
    {| requests := requests w;
       sleeps := (second * 1000)%Q :: sleeps w;
       draws := draws w;
       armed := armed w |}).

(** [setTimeout(() => controller?.abort(), ms)] *)
Definition setTimeout_abort (ms : Q) : M unit :=
  modify_world (fun w =>
    {| requests := requests w;
       sleeps := sleeps w;
       draws := draws w;
       armed := ms :: armed w |}).

Definition clearTimeout : M unit :=
  modify_world (fun w =>
    {| requests := requests w;
       sleeps := sleeps w;
       draws := draws w;
       armed := tail (armed w) |}).

Definition pow2 (n : nat) : Q := inject_Z (2 ^ Z.of_nat n).

(** The arithmetic of [calculateBackoff], for a draw [r] of
    [Math.random()]. *)
Definition backoff (cfg : RetryConfig) (count : nat) (r : Q) : Q :=
  let exponential := Qmin (maxDelay cfg) (baseDelay cfg * pow2 count) in
  let jitter := (exponential * (2 # 10) * (r - (1 # 2)))%Q in
  let withJitter := (exponential + jitter)%Q in
  Qmax 0 withJitter.

Definition calculateBackoff : M Q :=
  self <- get_this ;;
  r <- random ;;
  ret (backoff (retryConfig self) (retryCount self) r).

Definition retryable_status (status : Z) : bool :=
  (status =? 429) || (status =? 0) || ((500 <=? status) && (status <? 600)).

Definition shouldRetry (status : Z) : M bool :=
  self <- get_this ;;
  ret ((Z.of_nat (retryCount self) <? maxRetries (retryConfig self))
       && retryable_status status).

(** Lines 91-102: the retry hint of a response, in milliseconds. *)
Definition retryAfterHeader (response : Response) : option string :=
  JS.nullish (resp_headers response !! "retry-after")
             (resp_headers response !! "x-ratelimit-reset-after").

Definition retryAfterSeconds (response : Response) : option JS.number :=
  match retryAfterHeader response with
  | Some h => if JS.truthy_string h then Some (JS.parseFloat h) else None
  | None => None
  end.

Definition retryAfterMs (response : Response) : option Q :=
  match retryAfterSeconds response with
  | Some x =>
      if JS.isFinite (Some x) && JS.truthy_number x then
        match x with
        | JS.Fin q => Some (q * 1000)%Q
        | _ => None
        end
      else None
  | None => None
  end.

Definition string_of_status (status : Z) : string :=
  NilZero.string_of_int (Z.to_int status).

(** The object returned at lines 106-111. *)
Definition successResult (response : Response) : RequestResult :=
  {| ok := true;
     status := resp_status response;
     retryAfter := retryAfterMs response;
     bodyText := JS.or_undefined (resp_text response);
     error := None |}.

(** [errorResult], lines 125-131. *)
Definition errorResult (response : Response) : RequestResult :=
  {| ok := false;
     status := resp_status response;
     retryAfter := retryAfterMs response;
     bodyText := JS.or_undefined (resp_text response);
     error := Some (JS.or_string (resp_text response)
                      (JS.or_string (resp_statusText response)
                         (String.append "HTTP " (string_of_status (resp_status response))))) |}.

(** [message], lines 136-137. *)
Definition message_of (e : Thrown) : string :=
  match e with
  | ThrownError m => m
  | ThrownValue true s => s
  | ThrownValue false _ => EmptyString
  end.

(** The object returned at lines 146-150. *)
Definition networkErrorResult (e : Thrown) : RequestResult :=
  {| ok := false;
     status := 0;
     retryAfter := None;
     bodyText := None;
     error := Some (JS.or_string (message_of e) "Network error") |}.

Definition truthy_timeout (t : option Q) : bool :=
  match t with
  | Some ms => negb (Qeq_bool ms 0)
  | None => false
  end.

(** The signal of the [AbortController] made for the timeout: it is
    aborted when the timer set at line 76 fires. *)
Definition controller_signal (init : option RequestInit) : option AbortSignal :=
  if truthy_timeout (init ≫= timeoutMs)
  then Some {| aborts_at := init ≫= timeoutMs |}
  else None.

(** The argument of [fetch], lines 80-88. *)
Definition make_request (url : string) (method : Method) (data : Data)
    (init : option RequestInit) : Request :=
  {| req_url := url;
     req_method := method;
     req_headers := default ∅ (init ≫= headers) ∪ {[ "Content-Type" := "application/json" ]};
     req_body := match method with
                 | GET => None
                 | _ => Some (JSON_stringify data)
                 end;
     req_signal := JS.nullish (controller_signal init) (init ≫= signal) |}.

(** The body of [send]; [again] stands for the recursive call
    [this.send(method, data, init)]. *)
Definition send_body (again : M (option RequestResult))
    (method : Method) (data : Data) (init : option RequestInit)
    : M (option RequestResult) :=
  let timeout := truthy_timeout (init ≫= timeoutMs) in
  (if timeout then setTimeout_abort (default 0%Q (init ≫= timeoutMs)) else ret tt) ;;;
  self <- get_this ;;
  attempt <- fetch (make_request (webhookUrl self) method data init) ;;
  result <-
    match attempt with
    | Responded response =>
        if resp_ok response then
          set_retryCount 0 ;;;
          ret (Some (successResult response))
        else
          retry <- shouldRetry (resp_status response) ;;
          if retry then
            self <- get_this ;;
            set_retryCount (S (retryCount self)) ;;;
            delayMs <-
              (if resp_status response =? 429 then
                 match retryAfterMs response with
                 | Some ms => ret ms
                 | None => calculateBackoff
                 end
               else calculateBackoff) ;;
            delay (delayMs / 1000) ;;;
            again
          else
            set_retryCount 0 ;;;
            ret (Some (errorResult response))
    | Threw e =>
        retry <- shouldRetry 0 ;;
        if retry then
          self <- get_this ;;
          set_retryCount (S (retryCount self)) ;;;
          delayMs <- calculateBackoff ;;
          delay (delayMs / 1000) ;;;
          again
        else
          set_retryCount 0 ;;;
          ret (Some (networkErrorResult e))
    end ;;
  (if timeout then clearTimeout else ret tt) ;;;
  ret result.

(** [send] with the depth of its self-recursion bounded by [fuel];
    [None] only when the bound is reached. *)
Fixpoint send_fuel (fuel : nat) (method : Method) (data : Data)
    (init : option RequestInit) : M (option RequestResult) :=
  match fuel with
  | O => ret None
  | S fuel' => send_body (send_fuel fuel' method data init) method data init
  end.

(** Each retry increments [retryCount] and needs
    [retryCount < maxRetries], so this many nested calls suffice. *)
Definition budget (c : RequestClient) : nat :=
  Z.to_nat (maxRetries (retryConfig c) - Z.of_nat (retryCount c)).

Definition send (method : Method) (data : Data) (init : option RequestInit)
    : M (option RequestResult) :=
  fun s => send_fuel (S (budget (this s))) method data init s.

(** *** Vocabulary for the properties of the loop *)

(** What [send] returns when the attempt [a] ends the loop. *)
Definition terminal_result (a : Attempt) : RequestResult :=
  match a with
  | Responded response =>
      if resp_ok response then successResult response else errorResult response
  | Threw e => networkErrorResult e
  end.

(** The status the code classifies an attempt by (0 for a throw). *)
Definition attempt_status (a : Attempt) : Z :=
  match a with
  | Responded response => resp_status response
  | Threw _ => 0
  end.

(** The attempt retries: it is not a success, its status is retryable
    and the budget is not used up. *)
Definition retries (c : RequestClient) (a : Attempt) : bool :=
  (Z.of_nat (retryCount c) <? maxRetries (retryConfig c))
  && match a with
     | Responded response =>
         negb (resp_ok response) && retryable_status (resp_status response)
     | Threw _ => true
     end.

(** The wait chosen at lines 116-119 and 141, for the counter value
    [count] already incremented and the draw [r]. *)
Definition chosen_delay (cfg : RetryConfig) (count : nat) (r : Q) (a : Attempt) : Q :=
  match a with
  | Responded response =>
      if resp_status response =? 429 then
        match retryAfterMs response with
        | Some ms => ms
        | None => backoff cfg count r
        end
      else backoff cfg count r
  | Threw _ => backoff cfg count r
  end.

(** The attempt made by a call of [send] in state [s]. *)
Definition attempt_at (s : St) (method : Method) (data : Data)
    (init : option RequestInit) : Attempt :=
  network (calls (world s)) (make_request (webhookUrl (this s)) method data init).

(** An attempt that the loop answers with a retry while budget remains. *)
Definition transient (a : Attempt) : bool :=
  match a with
  | Responded response =>
      negb (resp_ok response) && retryable_status (resp_status response)
  | Threw _ => true
  end.

(** The outcomes the claim on bounded retries calls retryable. *)
Definition retryable_outcome (a : Attempt) : Prop :=
  match a with
  | Threw _ => True
  | Responded response =>
      resp_status response = 429 \/ 500 <= resp_status response < 600
  end.

End Engine.

(** ** Backoff arithmetic: sample means *)

(** The mean of a finite sample, and the expected backoff when the draws of
    [Math.random] are distributed as the sample. *)
Definition Qsum (l : list Q) : Q := fold_right Qplus 0%Q l.

Definition mean (l : list Q) : Q := (Qsum l / inject_Z (Z.of_nat (length l)))%Q.

Definition expected_backoff (cfg : RetryConfig) (count : nat) (sample : list Q) : Q :=
  mean (map (backoff cfg count) sample).

(** [min(maxDelay, baseDelay * 2^count)] *)
Definition exponential (cfg : RetryConfig) (count : nat) : Q :=
  Qmin (maxDelay cfg) (baseDelay cfg * pow2 count)%Q.

(** The range of [Math.random], closed at 1. *)
Definition in_unit (u : Q) : Prop := (0 <= u <= 1)%Q.

(** ** The retry hint: sign of the header *)

(** The hint read as a strictly positive number of seconds. *)
Definition finite_positive_hint (response : Response) : Prop :=
  exists h q,
    retryAfterHeader response = Some h
    /\ JS.parseFloat h = JS.Fin q
    /\ (0 < q)%Q.

Definition negative_hint_response : Response :=
  {| resp_status := 429;
     resp_statusText := "Too Many Requests";
     resp_text := "";
     resp_headers := {[ "retry-after" := "-5" ]} |}.

(** ** Timeout and cancellation wiring *)

(** The instant at which the in-flight attempt is aborted: [fetch] reacts
    only to the signal it was given. *)
Definition abort_instant (req : Request) : option Q :=
  req_signal req ≫= aborts_at.

(** "Whichever fires first": the earlier of two optional instants. *)
Definition first_to_fire (a b : option Q) : option Q :=
  match a, b with
  | Some x, Some y => Some (Qmin x y)
  | Some x, None => Some x
  | None, _ => b
  end.

(** A caller that cancels after 10 ms while asking for a 5 s timeout. *)
Definition cancel_early_init : option RequestInit :=
  Some {| signal := Some {| aborts_at := Some 10%Q |};
          headers := None;
          timeoutMs := Some 5000%Q |}.

(** ** Webhook: size checks and [send] *)

Record IField := {
  name : option string;
  value : option string;
  inline : option bool
}.

(** [IEmbed]; of its optional members only those [validate] reads or the
    tests set are kept. *)
Record IEmbed := {
  title : option string;
  description : option string;
  fields : option (list IField)
}.

(** The object built by [toObject]. *)
Record IWebhook := {
  o_username : option string;
  o_avatar_url : option string;
  o_tts : option bool;
  o_content : option string;
  o_file : option string;
  o_embeds : option (list IEmbed)
}.

Record Webhook := {
  client : RequestClient;
  username : option string;
  avatar_url : option string;
  tts : option bool;
  content : option string;
  file : option string;
  embeds : option (list IEmbed)
}.

Record ValidationError := {
  message : string;
  field : option string;
  maxLength : option nat;
  actualLength : option nat
}.

(** How a synchronous method ends: it returns, or it throws a
    [ValidationError]. *)
Inductive Completion (A : Type) :=
| Normal (a : A)
| Throw (e : ValidationError).
Arguments Normal {A} a.
Arguments Throw {A} e.

(** [for (const x of xs) body(x)], stopped by the first throw. *)
Fixpoint for_each {A} (body : A -> Completion unit) (xs : list A) : Completion unit :=
  match xs with
  | [] => Normal tt
  | x :: rest =>
      match body x with
      | Normal _ => for_each body rest
      | Throw e => Throw e
      end
  end.

(** [s?.length ?? 0] *)
Definition length_or_0 (s : option string) : nat :=
  from_option String.length 0%nat s.

(** [xs?.length ?? 0] and [xs ?? []] *)
Definition size_or_0 {A} (xs : option (list A)) : nat :=
  from_option (@length A) 0%nat xs.

Definition or_empty {A} (xs : option (list A)) : list A := default [] xs.

Definition validate_field (f : IField) : Completion unit :=
  if (255 <? length_or_0 (name f))%nat then
    Throw {| message := "Field name length exceeds 255 characters";
             field := Some "field.name"%string;
             maxLength := Some 255%nat;
             actualLength := String.length <$> name f |}
  else if (1024 <? length_or_0 (value f))%nat then
    Throw {| message := "Field value length exceeds 1024 characters";
             field := Some "field.value"%string;
             maxLength := Some 1024%nat;
             actualLength := String.length <$> value f |}
  else Normal tt.

Definition validate_embed (embed : IEmbed) : Completion unit :=
  if (25 <? size_or_0 (fields embed))%nat then
    Throw {| message := "Fields length exceeds 25";
             field := Some "fields"%string;
             maxLength := Some 25%nat;
             actualLength := None |}
  else for_each validate_field (or_empty (fields embed)).

Definition validate (w : Webhook) : Completion unit :=
  if (2000 <? length_or_0 (content w))%nat then
    Throw {| message := "Content length exceeds 2000 characters";
             field := Some "content"%string;
             maxLength := Some 2000%nat;
             actualLength := String.length <$> content w |}
  else if (10 <? size_or_0 (embeds w))%nat then
    Throw {| message := "Embeds length exceeds 10";
             field := Some "embeds"%string;
             maxLength := Some 10%nat;
             actualLength := None |}
  else for_each validate_embed (or_empty (embeds w)).

Definition toObject (w : Webhook) : IWebhook :=
  {| o_username := username w;
     o_avatar_url := avatar_url w;
     o_tts := tts w;
     o_content := content w;
     o_file := file w;
     o_embeds := embeds w |}.

Definition with_client (w : Webhook) (c : RequestClient) : Webhook :=
  {| client := c;
     username := username w;
     avatar_url := avatar_url w;
     tts := tts w;
     content := content w;
     file := file w;
     embeds := embeds w |}.

Section WebhookSend.

Variable JSON_stringify : IWebhook -> string.
Variable network : nat -> Request -> Attempt.
Variable Math_random : nat -> Q.

(** [Webhook.send]: the completion, the webhook and the world after the
    call. *)
Definition Webhook_send (w : Webhook) (init : option RequestInit) (world0 : World)
    : Completion (option RequestResult) * Webhook * World :=
  match validate w with
  | Throw e => (Throw e, w, world0)
  | Normal _ =>
      let '(r, s') :=
        send JSON_stringify network Math_random POST (toObject w) init
          {| this := client w; world := world0 |} in
      (Normal r, with_client w (this s'), world s')
  end.

End WebhookSend.

(** The size limits, as the documentation lists them. *)
Definition field_too_long (f : IField) : Prop :=
  (255 < length_or_0 (name f))%nat \/ (1024 < length_or_0 (value f))%nat.

Definition embed_too_big (e : IEmbed) : Prop :=
  (25 < size_or_0 (fields e))%nat \/ Exists field_too_long (or_empty (fields e)).

Definition violates_limit (w : Webhook) : Prop :=
  (2000 < length_or_0 (content w))%nat
  \/ (10 < size_or_0 (embeds w))%nat
  \/ Exists embed_too_big (or_empty (embeds w)).

(** ** Concrete runs *)

Module Demo.

Definition stringify (_ : unit) : string := "{}".

Definition url : string := "https://example.test/hook".

Definition response_of (code : Z) (hdrs : gmap string string) : Response :=
  {| resp_status := code;
     resp_statusText := "";
     resp_text := "";
     resp_headers := hdrs |}.

(** A transport that answers every call the same way. *)
Definition always (a : Attempt) : nat -> Request -> Attempt := fun _ _ => a.

(** 429 with a hint, then 429, then 204 (the test of the rate limit and
    scenario A of the documentation). *)
Definition limited_then_ok : nat -> Request -> Attempt :=
  fun k _ =>
    match k with
    | 0%nat => Responded (response_of 429 {[ "x-ratelimit-reset-after" := "1" ]})
    | 1%nat => Responded (response_of 429 ∅)
    | _ => Responded (response_of 204 ∅)
    end.

Definition half : nat -> Q := fun _ => (1 # 2)%Q.

Definition empty_world : World :=
  {| requests := []; sleeps := []; draws := 0; armed := [] |}.

Definition fresh (retries : Z) : St :=
  {| this := new_RequestClient url
               (Some {| maxRetries_opt := Some retries;
                        baseDelay_opt := Some 10%Q;
                        maxDelay_opt := None |});
     world := empty_world |}.

End Demo.

Module DemoHook.

Definition stringify (_ : IWebhook) : string := "{}".

Definition hook (text : string) : Webhook :=
  {| client := new_RequestClient Demo.url None;
     username := None;
     avatar_url := None;
     tts := None;
     content := Some text;
     file := None;
     embeds := None |}.

Fixpoint repeat_string (c : ascii) (n : nat) : string :=
  match n with
  | O => EmptyString
  | S n' => String c (repeat_string c n')
  end.

(** ['a'.repeat(2001)] *)
Definition too_long : string := repeat_string "a" 2001.

Definition no_content : nat -> Request -> Attempt :=
  Demo.always (Responded (Demo.response_of 204 ∅)).

End DemoHook.

(** ** Embed: the builder of one rich block *)

(** [Number.parseInt(s, 16)]: leading white space, an optional sign, an
    optional [0x] prefix, then the longest run of hexadecimal digits; NaN
    when that run is empty.  The value is kept exact. *)
Definition hex_digit_value (c : ascii) : option Z :=
  let n := nat_of_ascii c in
  if (Nat.leb 48 n && Nat.leb n 57)%bool then Some (Z.of_nat (n - 48))
  else if (Nat.leb 97 n && Nat.leb n 102)%bool then Some (Z.of_nat (n - 87))
  else if (Nat.leb 65 n && Nat.leb n 70)%bool then Some (Z.of_nat (n - 55))
  else None.

Fixpoint read_hex (s : string) (acc : Z) (count : nat) : Z * nat :=
  match s with
  | String c r =>
      match hex_digit_value c with
      | Some d => read_hex r (16 * acc + d) (S count)
      | None => (acc, count)
      end
  | EmptyString => (acc, count)
  end.

Definition strip_hex_prefix (s : string) : string :=
  match s with
  | String c0 (String c1 r) =>
      if (Ascii.eqb c0 "0" && (Ascii.eqb c1 "x" || Ascii.eqb c1 "X"))%bool
      then r else s
  | _ => s
  end.

Definition parse_hex_digits (negative : bool) (s : string) : JS.number :=
  let '(v, n) := read_hex (strip_hex_prefix s) 0 0 in
  if Nat.eqb n 0 then JS.NaN
  else JS.Fin (inject_Z (if negative then - v else v)).

Definition parseInt16 (input : string) : JS.number :=
  match JS.trim_start input with
  | String c r =>
      if Ascii.eqb c "-" then parse_hex_digits true r
      else if Ascii.eqb c "+" then parse_hex_digits false r
      else parse_hex_digits false (String c r)
  | EmptyString => JS.NaN
  end.

(** [s.replace(c, '')] for a one-character pattern: the first occurrence
    only. *)
Fixpoint remove_first (c : ascii) (s : string) : string :=
  match s with
  | String d r => if Ascii.eqb d c then r else String d (remove_first c r)
  | EmptyString => EmptyString
  end.

(** What a builder method can throw: [new Error(message)], a [TypeError]
    from reading [.length] of [undefined], or a [ValidationError]. *)
Inductive Raised :=
| RaisedError (text : string)
| RaisedTypeError
| RaisedValidation (e : ValidationError).

(** The state of an [Embed].  The members whose types are declared in
    files that are not at hand ([footer], [image], [thumbnail], [video],
    [provider], [author]) and [timestamp] (a clock reading) are left out,
    with their setters. *)
Record Embed := {
  em_title : option string;
  em_url : option string;
  em_description : option string;
  em_color : option JS.number;
  em_fields : option (list IField)
}.

Definition new_Embed : Embed :=
  {| em_title := None; em_url := None; em_description := None;
     em_color := None; em_fields := None |}.

Definition with_fields (e : Embed) (fs : option (list IField)) : Embed :=
  {| em_title := em_title e; em_url := em_url e;
     em_description := em_description e; em_color := em_color e;
     em_fields := fs |}.

(** A method call on an [Embed]: the state it leaves and what it threw,
    if anything. *)
Definition Ran : Type := (Embed * option Raised)%type.

Definition setTitle (text : string) (e : Embed) : Ran :=
  if (256 <? String.length text)%nat then
    (e, Some (RaisedError "Title length exceeds 256 characters"))
  else
    ({| em_title := Some text; em_url := em_url e;
        em_description := em_description e; em_color := em_color e;
        em_fields := em_fields e |}, None).

Definition setURL (link : string) (e : Embed) : Ran :=
  ({| em_title := em_title e; em_url := Some link;
      em_description := em_description e; em_color := em_color e;
      em_fields := em_fields e |}, None).

Definition setDescription (text : string) (e : Embed) : Ran :=
  if (4096 <? String.length text)%nat then
    (e, Some (RaisedError "Description length exceeds 4096 characters"))
  else
    ({| em_title := em_title e; em_url := em_url e;
        em_description := Some text; em_color := em_color e;
        em_fields := em_fields e |}, None).

(** The argument of [setColor]: a number or a string. *)
Inductive ColorArg :=
| ColorNumber (n : JS.number)
| ColorString (s : string).

Definition color_of (c : ColorArg) : JS.number :=
  match c with
  | ColorString s => parseInt16 (remove_first "#" s)
  | ColorNumber n => n
  end.

Definition setColor (c : ColorArg) (e : Embed) : Ran :=
  ({| em_title := em_title e; em_url := em_url e;
      em_description := em_description e; em_color := Some (color_of c);
      em_fields := em_fields e |}, None).

Definition assertFieldName (field_name : option string) : option Raised :=
  match field_name with
  | None => Some RaisedTypeError
  | Some n =>
      if (256 <? String.length n)%nat then
        Some (RaisedValidation
                {| message := "Field name length exceeds 256 characters";
                   field := Some "field.name"%string;
                   maxLength := Some 256%nat;
                   actualLength := Some (String.length n) |})
      else None
  end.

Definition assertFieldValue (field_value : option string) : option Raised :=
  match field_value with
  | None =>
      Some (RaisedValidation
              {| message := "Field value is required";
                 field := Some "field.value"%string;
                 maxLength := None; actualLength := None |})
  | Some v =>
      if (String.length v =? 0)%nat then
        Some (RaisedValidation
                {| message := "Field value is required";
                   field := Some "field.value"%string;
                   maxLength := None; actualLength := None |})
      else if (1024 <? String.length v)%nat then
        Some (RaisedValidation
                {| message := "Field value length exceeds 1024 characters";
                   field := Some "field.value"%string;
                   maxLength := Some 1024%nat;
                   actualLength := Some (String.length v) |})
      else None
  end.

Definition fields_exceeded : Raised :=
  RaisedValidation {| message := "Fields length exceeds 25";
                      field := Some "fields"%string;
                      maxLength := Some 25%nat;
                      actualLength := None |}.

(** The two overloads of [addField]. *)
Inductive FieldArg :=
| FieldObject (f : IField)
| FieldParams (field_name : string) (field_value : option string) (inline_flag : option bool).

(** The field that [addField] pushes, once the assertions have passed. *)
Definition pushed_field (arg : FieldArg) : IField :=
  match arg with
  | FieldObject f => f
  | FieldParams n v i =>
      {| name := Some n;
         value := Some (JS.or_string (default EmptyString v) EmptyString);
         inline := Some (default false i) |}
  end.

Definition addField (arg : FieldArg) (e : Embed) : Ran :=
  let fs := or_empty (em_fields e) in
  let e0 := with_fields e (Some fs) in
  if (25 <=? length fs)%nat then (e0, Some fields_exceeded)
  else
    let checked :=
      match arg with
      | FieldParams n v _ =>
          match assertFieldName (Some n) with
          | Some r => Some r
          | None => assertFieldValue v
          end
      | FieldObject f =>
          match assertFieldName (name f) with
          | Some r => Some r
          | None => assertFieldValue (value f)
          end
      end in
    match checked with
    | Some r => (e0, Some r)
    | None =>
        let fs' := fs ++ [pushed_field arg] in
        let e1 := with_fields e (Some fs') in
        if (25 <? length fs')%nat then (e1, Some fields_exceeded)
        else (e1, None)
    end.

(** The loop of [setFields]: the first assertion that fails. *)
Fixpoint assert_fields (fs : list IField) : option Raised :=
  match fs with
  | [] => None
  | f :: rest =>
      match assertFieldName (name f) with
      | Some r => Some r
      | None =>
          match assertFieldValue (value f) with
          | Some r => Some r
          | None => assert_fields rest
          end
      end
  end.

Definition setFields (fs : list IField) (e : Embed) : Ran :=
  if (25 <? length fs)%nat then (e, Some fields_exceeded)
  else
    match assert_fields fs with
    | Some r => (e, Some r)
    | None => (with_fields e (Some fs), None)
    end.

(** [Embed.toObject], onto the members [IEmbed] keeps here. *)
Definition Embed_toObject (e : Embed) : IEmbed :=
  {| title := em_title e;
     description := em_description e;
     fields := em_fields e |}.

(** A call of one of the builder methods, and a chain of such calls, each
    made on the state the previous one left (a caller may catch what was
    thrown and go on).  Arrays and field objects are values here: the
    caller does not modify, behind the embed's back, an array or a field it
    has handed over. *)
Inductive EmbedCall :=
| CallSetTitle (text : string)
| CallSetURL (link : string)
| CallSetDescription (text : string)
| CallSetColor (c : ColorArg)
| CallAddField (arg : FieldArg)
| CallSetFields (fs : list IField).

Definition call_embed (c : EmbedCall) (e : Embed) : Ran :=
  match c with
  | CallSetTitle t => setTitle t e
  | CallSetURL u => setURL u e
  | CallSetDescription d => setDescription d e
  | CallSetColor c => setColor c e
  | CallAddField a => addField a e
  | CallSetFields fs => setFields fs e
  end.

Definition run_embed (cs : list EmbedCall) (e : Embed) : Embed :=
  fold_left (fun acc c => fst (call_embed c acc)) cs e.

(** ** Webhook: the other methods *)

Definition new_Webhook (url : string) (cfg : option PartialRetryConfig) : Webhook :=
  {| client := new_RequestClient url cfg;
     username := None; avatar_url := None; tts := None;
     content := None; file := None; embeds := None |}.

Definition setUsername (u : string) (w : Webhook) : Webhook :=
  {| client := client w; username := Some u; avatar_url := avatar_url w;
     tts := tts w; content := content w; file := file w; embeds := embeds w |}.

Definition setAvatarUrl (u : string) (w : Webhook) : Webhook :=
  {| client := client w; username := username w; avatar_url := Some u;
     tts := tts w; content := content w; file := file w; embeds := embeds w |}.

Definition setTTS (flag : bool) (w : Webhook) : Webhook :=
  {| client := client w; username := username w; avatar_url := avatar_url w;
     tts := Some flag; content := content w; file := file w; embeds := embeds w |}.

Definition setFile (f : string) (w : Webhook) : Webhook :=
  {| client := client w; username := username w; avatar_url := avatar_url w;
     tts := tts w; content := content w; file := Some f; embeds := embeds w |}.

Definition with_embeds (w : Webhook) (es : option (list IEmbed)) : Webhook :=
  {| client := client w; username := username w; avatar_url := avatar_url w;
     tts := tts w; content := content w; file := file w; embeds := es |}.

Definition setContent (text : string) (w : Webhook) : Completion Webhook :=
  if (2000 <? String.length text)%nat then
    Throw {| message := "Content length exceeds 2000 characters";
             field := Some "content"%string;
             maxLength := Some 2000%nat;
             actualLength := Some (String.length text) |}
  else
    Normal {| client := client w; username := username w;
              avatar_url := avatar_url w; tts := tts w;
              content := Some text; file := file w; embeds := embeds w |}.

Definition addEmbed (embed : Embed) (w : Webhook) : Completion Webhook :=
  match embeds w with
  | None => Normal (with_embeds w (Some [Embed_toObject embed]))
  | Some es =>
      if (length es <? 10)%nat
      then Normal (with_embeds w (Some (es ++ [Embed_toObject embed])))
      else Throw {| message := "Embeds length exceeds 10";
                    field := Some "embeds"%string;
                    maxLength := Some 10%nat;
                    actualLength := None |}
  end.

Inductive WebhookCall :=
| CallSetUsername (u : string)
| CallSetAvatarUrl (u : string)
| CallSetTTS (flag : bool)
| CallSetContent (text : string)
| CallAddEmbed (embed : Embed)
| CallSetFile (f : string).

Definition call_webhook (c : WebhookCall) (w : Webhook) : Completion Webhook :=
  match c with
  | CallSetUsername u => Normal (setUsername u w)
  | CallSetAvatarUrl u => Normal (setAvatarUrl u w)
  | CallSetTTS b => Normal (setTTS b w)
  | CallSetContent t => setContent t w
  | CallAddEmbed e => addEmbed e w
  | CallSetFile f => Normal (setFile f w)
  end.

(** A chain of builder calls; a call that throws leaves the webhook as it
    was.  [addEmbed] takes the embed as it is at the call. *)
Definition run_webhook (cs : list WebhookCall) (w : Webhook) : Webhook :=
  fold_left (fun acc c => match call_webhook c acc with
                          | Normal w' => w'
                          | Throw _ => acc
                          end) cs w.

(** The embeds handed to [addEmbed] in a chain. *)
Fixpoint added_embeds (cs : list WebhookCall) : list Embed :=
  match cs with
  | [] => []
  | CallAddEmbed e :: rest => e :: added_embeds rest
  | _ :: rest => added_embeds rest
  end.

Section WebhookRequests.

Context {Param : Type}.
Variable stringify_param : Param -> string.
Variable stringify_string : string -> string.
Variable network : nat -> Request -> Attempt.
Variable Math_random : nat -> Q.



(** The request of a bare [fetch(url)]. *)
Definition plain_request (url : string) : Request :=
  {| req_url := url; req_method := GET; req_headers := ∅;
     req_body := None; req_signal := None |}.

(** [Webhook.isValid]: [fetch(url).then(() => true).catch(() => false)];
    of the attempt only whether [fetch] resolved matters. *)
Definition isValid (w : Webhook) (world0 : World) : bool * Webhook * World :=
  let '(a, s') :=
    fetch network (plain_request (webhookUrl (client w)))
      {| this := client w; world := world0 |} in
  (match a with Responded _ => true | Threw _ => false end,
   with_client w (this s'), world s').

(** [Webhook.getRetryConfig] *)
Definition getRetryConfig (w : Webhook) : RetryConfig := retryConfig (client w).

End WebhookRequests.

(** The limits within which the builder methods keep an [Embed]. *)
Definition field_within_limits (f : IField) : Prop :=
  (exists n, name f = Some n /\ (String.length n <= 256)%nat)
  /\ (exists v, value f = Some v /\ (1 <= String.length v <= 1024)%nat).

Definition embed_within_limits (e : Embed) : Prop :=
  (length_or_0 (em_title e) <= 256)%nat
  /\ (length_or_0 (em_description e) <= 4096)%nat
  /\ (size_or_0 (em_fields e) <= 25)%nat
  /\ Forall field_within_limits (or_empty (em_fields e)).

(** Some field of the webhook has a name of exactly 256 characters. *)
Definition has_name_of_256 (w : Webhook) : Prop :=
  Exists (fun em => Exists (fun f => length_or_0 (name f) = 256%nat)
                      (or_empty (fields em)))
         (or_empty (embeds w)).


(** The limits within which the builder methods keep a [Webhook]. *)
Definition payload_embed_within_limits (em : IEmbed) : Prop :=
  (size_or_0 (fields em) <= 25)%nat
  /\ Forall field_within_limits (or_empty (fields em)).

Definition webhook_within_limits (w : Webhook) : Prop :=
  (length_or_0 (content w) <= 2000)%nat
  /\ (size_or_0 (embeds w) <= 10)%nat
  /\ Forall payload_embed_within_limits (or_empty (embeds w)).

(** An embed made by calls of the builder methods on a new [Embed]. *)
Definition built_embed (e : Embed) : Prop :=
  exists cs, e = run_embed cs new_Embed.

Module DemoEmbed.

(** ['a'.repeat(256)] *)
Definition name_256 : string := DemoHook.repeat_string "a" 256.

Definition two_fields : list FieldArg :=
  [FieldParams "Field 1" (Some "Value 1"%string) (Some true);
   FieldObject {| name := Some "Field 2"%string;
                  value := Some "Value 2"%string;
                  inline := None |}].

(** An embed the builder accepts, whose field name has 256 characters. *)
Definition long_name_embed : Embed :=
  run_embed [CallSetTitle "Title";
             CallAddField (FieldParams name_256 (Some "Value"%string) None)]
            new_Embed.

Definition long_name_calls : list WebhookCall :=
  [CallSetContent "Hello"; CallAddEmbed long_name_embed].

End DemoEmbed.

(** * Properties *)

(** ** The retry loop *)

Section EngineFacts.

Context {Data : Type}.
Variable JSON_stringify : Data -> string.
Variable network : nat -> Request -> Attempt.
Variable Math_random : nat -> Q.

Abbreviation send_fuel' := (send_fuel JSON_stringify network Math_random).
Abbreviation send_body' := (send_body JSON_stringify network Math_random).
Abbreviation send' := (send JSON_stringify network Math_random).
Abbreviation make_request' := (make_request JSON_stringify).

Ltac run_body :=
  unfold send_body, bind, ret, get_this, fetch, shouldRetry, set_retryCount,
    calculateBackoff, random, delay, setTimeout_abort, clearTimeout,
    modify_world, get_this, bind, ret; cbn.

Lemma send_body_terminal again method data init s :
  retries (this s) (attempt_at JSON_stringify network s method data init) = false ->
  exists s',
    send_body' again method data init s
      = (Some (terminal_result (attempt_at JSON_stringify network s method data init)), s')
    /\ retryCount (this s') = 0%nat
    /\ webhookUrl (this s') = webhookUrl (this s)
    /\ retryConfig (this s') = retryConfig (this s)
    /\ requests (world s')
       = make_request' (webhookUrl (this s)) method data init :: requests (world s)
    /\ sleeps (world s') = sleeps (world s)
    /\ draws (world s') = draws (world s)
    /\ armed (world s') = armed (world s).
Proof.
  unfold retries, attempt_at, calls. intros Hr. run_body.
  destruct (truthy_timeout (init ≫= timeoutMs)); cbn;
    destruct (network _ _) as [response | e]; cbn in *;
    try destruct (resp_ok response); cbn in *;
    destruct (Z.of_nat _ <? _); cbn in *;
    try rewrite Hr; try discriminate;
    eexists; repeat split; reflexivity.
Qed.

Lemma send_body_retry again method data init s :
  retries (this s) (attempt_at JSON_stringify network s method data init) = true ->
  exists s1,
    retryCount (this s1) = S (retryCount (this s))
    /\ webhookUrl (this s1) = webhookUrl (this s)
    /\ retryConfig (this s1) = retryConfig (this s)
    /\ requests (world s1)
       = make_request' (webhookUrl (this s)) method data init :: requests (world s)
    /\ sleeps (world s1)
       = (chosen_delay (retryConfig (this s)) (S (retryCount (this s)))
            (Math_random (draws (world s))) (attempt_at JSON_stringify network s method data init)
          / 1000 * 1000)%Q :: sleeps (world s)
    /\ (forall r s2, again s1 = (r, s2) ->
        exists s',
          send_body' again method data init s = (r, s')
          /\ this s' = this s2
          /\ requests (world s') = requests (world s2)
          /\ sleeps (world s') = sleeps (world s2)
          /\ (armed (world s2) = armed (world s1) -> armed (world s') = armed (world s))).
Proof.
  unfold retries, attempt_at, calls, chosen_delay. intros Hr. run_body.
  destruct (truthy_timeout (init ≫= timeoutMs)); cbn;
    destruct (network _ _) as [response | e]; cbn in *;
    try destruct (resp_ok response); cbn in *;
    destruct (Z.of_nat _ <? _); cbn in *;
    try rewrite Hr; try discriminate;
    try destruct (resp_status response =? 429);
    try destruct (retryAfterMs response); cbn;
    (match goal with |- context [again ?X] => exists X end;
     do 5 (split; [reflexivity|]);
     intros r s2 Hs2; rewrite Hs2; eexists; do 4 (split; [reflexivity|]);
     cbn; intros ->; reflexivity).
Qed.

Lemma retries_transient c a :
  retries c a = (Z.of_nat (retryCount c) <? maxRetries (retryConfig c)) && transient a.
Proof. reflexivity. Qed.

Lemma budget_zero c :
  budget c = 0%nat <-> (Z.of_nat (retryCount c) <? maxRetries (retryConfig c)) = false.
Proof. unfold budget. rewrite Z.ltb_ge. lia. Qed.

Lemma budget_step c c' :
  (Z.of_nat (retryCount c) <? maxRetries (retryConfig c)) = true ->
  retryCount c' = S (retryCount c) ->
  retryConfig c' = retryConfig c ->
  budget c = S (budget c').
Proof. unfold budget. rewrite Z.ltb_lt. intros H -> ->. lia. Qed.

(** The run of one logical [send]: it ends after [S k] network calls,
    all with the same request, [k] of them answered by a retry; the
    result is that of the last attempt and the counter is back at 0. *)
Lemma send_fuel_run method data init :
  forall fuel s,
    (budget (this s) < fuel)%nat ->
    let req := make_request' (webhookUrl (this s)) method data init in
    exists r s' k,
      send_fuel' fuel method data init s = (Some r, s')
      /\ retryCount (this s') = 0%nat
      /\ webhookUrl (this s') = webhookUrl (this s)
      /\ retryConfig (this s') = retryConfig (this s)
      /\ requests (world s') = repeat req (S k) ++ requests (world s)
      /\ armed (world s') = armed (world s)
      /\ length (sleeps (world s')) = (length (sleeps (world s)) + k)%nat
      /\ (k <= budget (this s))%nat
      /\ (forall j, (j < k)%nat -> transient (network (calls (world s) + j) req) = true)
      /\ ((k < budget (this s))%nat -> transient (network (calls (world s) + k) req) = false)
      /\ r = terminal_result (network (calls (world s) + k) req).
Proof.
  induction fuel as [|fuel IH]; intros s Hfuel req; [lia|].
  cbn [send_fuel].
  destruct (retries (this s) (attempt_at JSON_stringify network s method data init)) eqn:Hr.
  - destruct (send_body_retry (send_fuel' fuel method data init) method data init s Hr)
      as (s1 & Hc1 & Hu1 & Hg1 & Hq1 & Hz1 & Hk).
    rewrite retries_transient in Hr. apply andb_prop in Hr as [Hlt Htr].
    pose proof (budget_step (this s) (this s1) Hlt Hc1 Hg1) as Hb.
    destruct (IH s1 ltac:(lia)) as (r & s2 & k & Hrun & Hc2 & Hu2 & Hg2 & Hq2 & Ha2 & Hz2 & Hle & Hall & Hlast & Hres).
    destruct (Hk (Some r) s2 Hrun) as (s' & Hbody & Hthis & Hq' & Hz' & Ha').
    rewrite Hu1 in *. fold req in Hq1, Hq2, Hall, Hlast, Hres.
    assert (Hcalls : calls (world s1) = S (calls (world s)))
      by (unfold calls; rewrite Hq1; reflexivity).
    rewrite Hcalls in *.
    exists r, s', (S k). rewrite Hbody, Hthis.
    repeat split; try congruence.
    + rewrite Hq', Hq2, Hq1.
      change (req :: requests (world s)) with ([req] ++ requests (world s)).
      rewrite app_assoc, <- repeat_cons. reflexivity.
    + auto.
    + rewrite Hz', Hz2, Hz1. cbn. lia.
    + lia.
    + intros [|j] Hj.
      * rewrite Nat.add_0_r. exact Htr.
      * replace (calls (world s) + S j)%nat with (S (calls (world s)) + j)%nat by lia.
        apply Hall. lia.
    + intros Hlt'. replace (calls (world s) + S k)%nat with (S (calls (world s)) + k)%nat by lia.
      apply Hlast. lia.
    + replace (calls (world s) + S k)%nat with (S (calls (world s)) + k)%nat by lia.
      exact Hres.
  - destruct (send_body_terminal (send_fuel' fuel method data init) method data init s Hr)
      as (s' & Hbody & Hc & Hu & Hg & Hq & Hz & Hd & Ha).
    exists (terminal_result (attempt_at JSON_stringify network s method data init)), s', 0%nat.
    rewrite !Nat.add_0_r.
    repeat split; try assumption; try lia; try reflexivity.
    + rewrite Hz. lia.
    + intros Hlt. rewrite retries_transient in Hr.
      apply andb_false_iff in Hr as [Hr|Hr];
        [apply budget_zero in Hr; lia | rewrite ?Nat.add_0_r; exact Hr].
Qed.

Lemma send_enough_fuel method data init s :
  send' method data init s = send_fuel' (S (budget (this s))) method data init s.
Proof. reflexivity. Qed.

Lemma terminal_status a : status (terminal_result a) = attempt_status a.
Proof. destruct a as [response|e]; cbn; [destruct (resp_ok response)|]; reflexivity. Qed.

Lemma terminal_ok a :
  ok (terminal_result a) = true <-> 200 <= attempt_status a < 300.
Proof.
  destruct a as [response|e]; cbn.
  - unfold resp_ok. destruct (200 <=? resp_status response) eqn:H1;
      destruct (resp_status response <=? 299) eqn:H2; cbn;
      rewrite ?Z.leb_le, ?Z.leb_gt in *; split; intros; try discriminate; try lia; reflexivity.
  - split; intros; [discriminate | lia].
Qed.

Lemma calls_after_run (w w' : World) (req : Request) k :
  requests w' = repeat req (S k) ++ requests w ->
  calls w' = (calls w + k + 1)%nat.
Proof.
  unfold calls. intros ->. rewrite length_app, repeat_length. lia.
Qed.

Lemma retryable_outcome_transient a : retryable_outcome a -> transient a = true.
Proof.
  destruct a as [response|e]; cbn; [|reflexivity].
  unfold resp_ok, retryable_status. intros H.
  destruct (resp_status response <=? 299) eqn:H2;
    rewrite ?Z.leb_le, ?Z.leb_gt in H2; [lia|].
  rewrite andb_false_r. cbn.
  destruct H as [-> | H]; [reflexivity|].
  replace (500 <=? resp_status response) with true by (symmetry; apply Z.leb_le; lia).
  replace (resp_status response <? 600) with true by (symmetry; apply Z.ltb_lt; lia).
  cbn. apply orb_true_r.
Qed.

(** C1: with the counter at 0 and [maxRetries = N] (a non-negative
    integer), if every attempt of the call gets a retryable outcome (a
    throw, status 429 or a status in [500,600)), [send] returns after
    exactly [N + 1] network calls, and its result is the failure result of
    the last attempt, with [ok = false]. *)
Theorem C1_bounded_retries (N : Z) method data init s :
  0 <= N ->
  maxRetries (retryConfig (this s)) = N ->
  retryCount (this s) = 0%nat ->
  (forall j, retryable_outcome
               (network (calls (world s) + j)
                  (make_request JSON_stringify (webhookUrl (this s)) method data init))) ->
  exists r s',
    send JSON_stringify network Math_random method data init s = (Some r, s')
    /\ calls (world s') = (calls (world s) + Z.to_nat N + 1)%nat
    /\ ok r = false
    /\ r = terminal_result
             (network (calls (world s) + Z.to_nat N)
                (make_request JSON_stringify (webhookUrl (this s)) method data init))
    /\ status r = attempt_status
             (network (calls (world s) + Z.to_nat N)
                (make_request JSON_stringify (webhookUrl (this s)) method data init)).
Proof.
  intros HN Hmax Hcount Hall.
  destruct (send_fuel_run method data init (S (budget (this s))) s (Nat.lt_succ_diag_r _))
    as (r & s' & k & Hrun & _ & _ & _ & Hq & _ & _ & Hle & _ & Hlast & Hres).
  assert (Hb : budget (this s) = Z.to_nat N)
    by (unfold budget; rewrite Hmax, Hcount; f_equal; lia).
  assert (Hk : k = budget (this s)).
  { destruct (Nat.eq_dec k (budget (this s))) as [|Hne]; [assumption|].
    specialize (Hlast ltac:(lia)).
    rewrite (retryable_outcome_transient _ (Hall k)) in Hlast. discriminate. }
  subst k. rewrite Hb in *.
  exists r, s'. split; [rewrite send_enough_fuel, Hb; exact Hrun|].
  split; [eapply calls_after_run; exact Hq|].
  split.
  - destruct (ok r) eqn:Hok; [|reflexivity].
    rewrite Hres in Hok. apply terminal_ok in Hok.
    specialize (Hall (Z.to_nat N)).
    destruct (network _ _) as [response|e]; cbn in *; lia.
  - split; [exact Hres|]. rewrite Hres. apply terminal_status.
Qed.

(** C6: every top-level [send] returns a result, and the instance's
    [retryCount] is 0 when it does, whatever the outcome and whatever the
    counter was when the call started. *)
Theorem C6_counter_reset method data init s :
  exists r s',
    send JSON_stringify network Math_random method data init s = (Some r, s')
    /\ retryCount (this s') = 0%nat.
Proof.
  destruct (send_fuel_run method data init (S (budget (this s))) s (Nat.lt_succ_diag_r _))
    as (r & s' & k & Hrun & Hc & _).
  exists r, s'. split; assumption.
Qed.

(** C9: the result of [send] has [ok = true] exactly when the status of
    the attempt that ended the loop is in [200,300); its [status] is that
    status (0 for a throw), and a result with status 0 has [ok = false]. *)
Theorem C9_ok_iff_2xx method data init s :
  exists r s',
    send JSON_stringify network Math_random method data init s = (Some r, s')
    /\ (let last := network (pred (calls (world s')))
                      (make_request JSON_stringify (webhookUrl (this s)) method data init) in
        status r = attempt_status last
        /\ (ok r = true <-> 200 <= attempt_status last < 300))
    /\ (ok r = true <-> 200 <= status r < 300)
    /\ (status r = 0 -> ok r = false).
Proof.
  destruct (send_fuel_run method data init (S (budget (this s))) s (Nat.lt_succ_diag_r _))
    as (r & s' & k & Hrun & _ & _ & _ & Hq & _ & _ & _ & _ & _ & Hres).
  exists r, s'. split; [exact Hrun|].
  rewrite (calls_after_run _ _ _ _ Hq).
  replace (pred (calls (world s) + k + 1)) with (calls (world s) + k)%nat by lia.
  cbv zeta. rewrite Hres, terminal_status.
  pose proof (terminal_ok (network (calls (world s) + k)
    (make_request' (webhookUrl (this s)) method data init))) as Hok.
  split; [split; [reflexivity | exact Hok]|].
  split; [exact Hok|].
  intros H0. destruct (ok (terminal_result _)); [|reflexivity].
  destruct Hok as [Hok _]. specialize (Hok eq_refl). lia.
Qed.

Lemma or_string_nonempty a b : b <> EmptyString -> JS.or_string a b <> EmptyString.
Proof. destruct a; cbn; [auto | discriminate]. Qed.

Lemma or_string_cases a b :
  JS.or_string a b = match a with EmptyString => b | _ => a end.
Proof. destruct a; reflexivity. Qed.

(** C7: a response with a status in [300,500) other than 429 ends the
    call at once: one network call whatever [maxRetries] is, and the
    result has [ok = false], that status and a non-empty error message. *)
Theorem C7_terminal_status method data init s response :
  attempt_at JSON_stringify network s method data init = Responded response ->
  300 <= resp_status response < 500 ->
  resp_status response <> 429 ->
  exists r s' msg,
    send JSON_stringify network Math_random method data init s = (Some r, s')
    /\ calls (world s') = S (calls (world s))
    /\ ok r = false
    /\ status r = resp_status response
    /\ error r = Some msg
    /\ msg <> EmptyString.
Proof.
  intros Ha Hrange H429.
  assert (Hok : resp_ok response = false).
  { unfold resp_ok. replace (resp_status response <=? 299) with false
      by (symmetry; apply Z.leb_gt; lia). apply andb_false_r. }
  assert (Hr : retries (this s) (attempt_at JSON_stringify network s method data init) = false).
  { rewrite retries_transient, Ha. cbn. unfold retryable_status.
    replace (resp_status response =? 429) with false by (symmetry; apply Z.eqb_neq; lia).
    replace (resp_status response =? 0) with false by (symmetry; apply Z.eqb_neq; lia).
    replace (resp_status response <? 600) with true by (symmetry; apply Z.ltb_lt; lia).
    replace (500 <=? resp_status response) with false by (symmetry; apply Z.leb_gt; lia).
    cbn. rewrite andb_false_r. apply andb_false_r. }
  destruct (send_body_terminal (send_fuel' (budget (this s)) method data init)
              method data init s Hr)
    as (s' & Hbody & _ & _ & _ & Hq & _).
  rewrite Ha in Hbody. cbn in Hbody. rewrite Hok in Hbody.
  eexists _, s', _. split; [exact Hbody|].
  split; [unfold calls; rewrite Hq; reflexivity|].
  cbn. repeat split.
  apply or_string_nonempty, or_string_nonempty. discriminate.
Qed.

(** C8: when the attempt throws and no retry budget remains
    ([maxRetries <= retryCount], e.g. [maxRetries = 0]), [send] returns a
    value after that one attempt: [ok = false], [status = 0], no
    [retryAfter], and as [error] the thrown value's message, or
    ["Network error"] when that message is empty. *)
Theorem C8_transport_failure method data init s e :
  attempt_at JSON_stringify network s method data init = Threw e ->
  maxRetries (retryConfig (this s)) <= Z.of_nat (retryCount (this s)) ->
  exists r s',
    send JSON_stringify network Math_random method data init s = (Some r, s')
    /\ calls (world s') = S (calls (world s))
    /\ ok r = false
    /\ status r = 0
    /\ retryAfter r = None
    /\ (message_of e <> EmptyString -> error r = Some (message_of e))
    /\ (message_of e = EmptyString -> error r = Some "Network error"%string).
Proof.
  intros Ha Hmax.
  assert (Hr : retries (this s) (attempt_at JSON_stringify network s method data init) = false).
  { unfold retries. replace (_ <? _) with false by (symmetry; apply Z.ltb_ge; lia).
    reflexivity. }
  destruct (send_body_terminal (send_fuel' (budget (this s)) method data init)
              method data init s Hr)
    as (s' & Hbody & _ & _ & _ & Hq & _).
  rewrite Ha in Hbody. cbn in Hbody.
  eexists _, s'. split; [exact Hbody|].
  split; [unfold calls; rewrite Hq; reflexivity|].
  cbn. do 3 (split; [reflexivity|]). rewrite or_string_cases.
  split; [destruct (message_of e); congruence | intros ->; reflexivity].
Qed.

Lemma wait_roundtrip (d : Q) : (d / 1000 * 1000 == d)%Q.
Proof. field. Qed.

(** C2: when an attempt is retried, the wait requested before the
    recursive call is the hint in milliseconds if the response status is
    429 and a hint was extracted, and the computed backoff (for the
    incremented counter) for every attempt whose status is not 429, a throw
    included, whether or not the response carries a hint. *)
Theorem C2_hint_precedence fuel method data init s :
  retries (this s) (attempt_at JSON_stringify network s method data init) = true ->
  exists s1 wait,
    sleeps (world s1) = wait :: sleeps (world s)
    /\ (forall r s2,
          send_fuel JSON_stringify network Math_random fuel method data init s1 = (r, s2) ->
          exists s',
            send_fuel JSON_stringify network Math_random (S fuel) method data init s = (r, s')
            /\ sleeps (world s') = sleeps (world s2))
    /\ (forall response ms,
          attempt_at JSON_stringify network s method data init = Responded response ->
          resp_status response = 429 ->
          retryAfterMs response = Some ms ->
          (wait == ms)%Q)
    /\ (attempt_status (attempt_at JSON_stringify network s method data init) <> 429 ->
        (wait == backoff (retryConfig (this s)) (S (retryCount (this s)))
                   (Math_random (draws (world s))))%Q).
Proof.
  intros Hr.
  destruct (send_body_retry (send_fuel' fuel method data init) method data init s Hr)
    as (s1 & _ & _ & _ & _ & Hz & Hk).
  eexists s1, _. split; [exact Hz|]. split.
  - intros r s2 Hrun. destruct (Hk r s2 Hrun) as (s' & Hbody & _ & _ & Hz' & _).
    exists s'. split; assumption.
  - split.
    + intros response ms -> H429 Hms. rewrite wait_roundtrip.
      cbn. rewrite H429, Hms. reflexivity.
    + intros Hne. rewrite wait_roundtrip.
      destruct (attempt_at JSON_stringify network s method data init) as [response|e]; cbn in *.
      * replace (resp_status response =? 429) with false
          by (symmetry; apply Z.eqb_neq; exact Hne).
        reflexivity.
      * reflexivity.
Qed.

End EngineFacts.

(** ** Backoff arithmetic *)

Section Backoff.

Local Open Scope Q_scope.

Variable cfg : RetryConfig.
Hypothesis base_pos : 0 < baseDelay cfg.
Hypothesis base_le_max : baseDelay cfg <= maxDelay cfg.

Lemma pow2_pos n : 0 < pow2 n.
Proof.
  unfold pow2. change 0 with (inject_Z 0). rewrite <- Zlt_Qlt.
  apply Z.pow_pos_nonneg; lia.
Qed.

Lemma pow2_succ n : pow2 (S n) == 2 * pow2 n.
Proof.
  unfold pow2. rewrite Nat2Z.inj_succ, Z.pow_succ_r by lia.
  rewrite inject_Z_mult. reflexivity.
Qed.

Lemma exponential_nonneg n : 0 <= exponential cfg n.
Proof.
  unfold exponential. apply Q.min_glb.
  - lra.
  - apply Qmult_le_0_compat; [lra | apply Qlt_le_weak, pow2_pos].
Qed.

Lemma exponential_le_max n : exponential cfg n <= maxDelay cfg.
Proof. apply Q.le_min_l. Qed.

Lemma exponential_mono n : exponential cfg n <= exponential cfg (S n).
Proof.
  unfold exponential. apply Q.min_le_compat_l.
  rewrite pow2_succ. pose proof (pow2_pos n) as Hp.
  assert (0 <= baseDelay cfg * pow2 n) by (apply Qmult_le_0_compat; lra).
  lra.
Qed.

(** For a draw in the range of [Math.random] the clamp at 0 is never
    active, and the delay is linear in the draw. *)
Lemma backoff_linear n u :
  0 <= u <= 1 ->
  backoff cfg n u == exponential cfg n * ((9 # 10) + (2 # 10) * u).
Proof.
  intros Hu. unfold backoff. fold (exponential cfg n).
  pose proof (exponential_nonneg n) as He.
  assert (Heq : exponential cfg n + exponential cfg n * (2 # 10) * (u - (1 # 2))
                == exponential cfg n * ((9 # 10) + (2 # 10) * u)) by ring.
  rewrite Heq. apply Q.max_r.
  apply Qmult_le_0_compat; lra.
Qed.

Lemma backoff_range n u :
  0 <= u <= 1 ->
  0 <= backoff cfg n u /\ backoff cfg n u <= maxDelay cfg * (11 # 10).
Proof.
  intros Hu. rewrite (backoff_linear n u Hu).
  pose proof (exponential_nonneg n) as He.
  pose proof (exponential_le_max n) as Hm.
  split.
  - apply Qmult_le_0_compat; lra.
  - apply Qle_trans with (exponential cfg n * (11 # 10)).
    + rewrite !(Qmult_comm (exponential cfg n)). apply Qmult_le_compat_r; lra.
    + apply Qmult_le_compat_r; lra.
Qed.

Lemma backoff_mono n u :
  0 <= u <= 1 -> backoff cfg n u <= backoff cfg (S n) u.
Proof.
  intros Hu. rewrite !backoff_linear by exact Hu.
  apply Qmult_le_compat_r; [apply exponential_mono | lra].
Qed.

Lemma Qsum_backoff n sample :
  Forall in_unit sample ->
  Qsum (map (backoff cfg n) sample)
  == exponential cfg n * ((9 # 10) * inject_Z (Z.of_nat (length sample))
                      + (2 # 10) * Qsum sample).
Proof.
  induction 1 as [|u l Hu Hl IH].
  - cbn. ring.
  - cbn [map Qsum fold_right length]. fold (Qsum (map (backoff cfg n) l)). fold (Qsum l).
    rewrite IH, (backoff_linear n u Hu), Nat2Z.inj_succ.
    unfold Z.succ. rewrite inject_Z_plus. ring.
Qed.

Lemma Qsum_le (f g : Q -> Q) sample :
  Forall (fun u => f u <= g u) sample ->
  Qsum (map f sample) <= Qsum (map g sample).
Proof.
  induction 1 as [|u l Hu Hl IH]; cbn; [lra|].
  apply Qplus_le_compat; assumption.
Qed.

Lemma length_pos (sample : list Q) :
  sample <> [] -> 0 < inject_Z (Z.of_nat (length sample)).
Proof.
  destruct sample; [congruence|]. intros _.
  change 0 with (inject_Z 0). rewrite <- Zlt_Qlt. cbn [length]. lia.
Qed.

Lemma expected_backoff_linear n sample :
  sample <> [] -> Forall in_unit sample ->
  expected_backoff cfg n sample
  == exponential cfg n * (1 + (2 # 10) * (mean sample - (1 # 2))).
Proof.
  intros Hne Hall. unfold expected_backoff, mean.
  rewrite length_map, (Qsum_backoff n sample Hall).
  pose proof (length_pos sample Hne) as Hlen.
  field. lra.
Qed.

Lemma expected_backoff_mono n sample :
  sample <> [] -> Forall in_unit sample ->
  expected_backoff cfg n sample <= expected_backoff cfg (S n) sample.
Proof.
  intros Hne Hall. unfold expected_backoff, mean. rewrite !length_map.
  pose proof (length_pos sample Hne) as Hlen.
  apply Qmult_le_compat_r.
  - apply Qsum_le. eapply List.Forall_impl; [|exact Hall].
    intros u Hu. apply backoff_mono, Hu.
  - apply Qlt_le_weak, Qinv_lt_0_compat, Hlen.
Qed.

End Backoff.

(** C5: for a policy with [0 < baseDelay <= maxDelay], any counter value
    and any draw [u] of [Math.random] in the unit interval,
    [calculateBackoff] returns [max(0, e + e * 0.2 * r)] with
    [e = min(maxDelay, baseDelay * 2^retryCount)] and [r = u - 0.5]; the
    delay lies in [[0, maxDelay * 1.2]]; and over any finite sample of draws
    the expected delay is [e * (1 + 0.2 * (mean r))] and does not decrease
    when the counter grows, [e] itself never exceeding [maxDelay]. *)
Theorem C5_backoff_bounds (Math_random : nat -> Q) (s : St) :
  let cfg := retryConfig (this s) in
  let n := retryCount (this s) in
  let u := Math_random (draws (world s)) in
  let e := Qmin (maxDelay cfg) (baseDelay cfg * pow2 n) in
  let d := fst (calculateBackoff Math_random s) in
  (0 < baseDelay cfg)%Q ->
  (baseDelay cfg <= maxDelay cfg)%Q ->
  (0 <= u <= 1)%Q ->
  (d == Qmax 0 (e + e * (2 # 10) * (u - (1 # 2))))%Q
  /\ (0 <= d)%Q
  /\ (d <= maxDelay cfg * (12 # 10))%Q
  /\ (e <= maxDelay cfg)%Q
  /\ forall sample : list Q,
       sample <> [] ->
       Forall (fun v => 0 <= v <= 1)%Q sample ->
       (expected_backoff cfg n sample
        == e * (1 + (2 # 10) * (mean sample - (1 # 2))))%Q
       /\ (expected_backoff cfg n sample <= expected_backoff cfg (S n) sample)%Q.
Proof.
  intros cfg n u e d Hpos Hle Hu.
  assert (Hd : d = backoff cfg n u) by reflexivity.
  destruct (backoff_range cfg Hpos Hle n u Hu) as [H0 H1].
  rewrite Hd. split; [reflexivity|]. split; [exact H0|]. split.
  - eapply Qle_trans; [exact H1|].
    assert (0 <= maxDelay cfg)%Q by lra. lra.
  - split; [apply Q.le_min_l|].
    intros sample Hne Hall. split.
    + apply (expected_backoff_linear cfg Hpos Hle n sample Hne Hall).
    + apply (expected_backoff_mono cfg Hpos Hle n sample Hne Hall).
Qed.

(** ** The retry hint of a response *)

Lemma parseFloat_empty : JS.parseFloat EmptyString = JS.NaN.
Proof. reflexivity. Qed.

Lemma retryAfterHeader_fallback (response : Response) :
  retryAfterHeader response
  = match resp_headers response !! "retry-after" with
    | Some h => Some h
    | None => resp_headers response !! "x-ratelimit-reset-after"
    end.
Proof.
  unfold retryAfterHeader, JS.nullish.
  destruct (resp_headers response !! "retry-after"); reflexivity.
Qed.

Lemma retryAfterMs_unfold (response : Response) :
  retryAfterMs response
  = match retryAfterHeader response with
    | Some h =>
        match JS.parseFloat h with
        | JS.Fin q => if Qeq_bool q 0 then None else Some (q * 1000)%Q
        | _ => None
        end
    | None => None
    end.
Proof.
  unfold retryAfterMs, retryAfterSeconds.
  destruct (retryAfterHeader response) as [[|c h]|]; [reflexivity| |reflexivity].
  cbn [JS.truthy_string].
  destruct (JS.parseFloat (String c h)) as [| neg | q]; cbn; try reflexivity.
  destruct (Qeq_bool q 0); reflexivity.
Qed.

Lemma Qeq_bool_false (q : Q) : Qeq_bool q 0 = false <-> ~ (q == 0)%Q.
Proof.
  split.
  - intros H Hq. apply Qeq_bool_iff in Hq. congruence.
  - intros H. destruct (Qeq_bool q 0) eqn:E; [|reflexivity].
    apply Qeq_bool_iff in E. contradiction.
Qed.

(** C4 (as the code has it): the hint of a response is defined exactly when
    the [retry-after] header, or the [x-ratelimit-reset-after] header when
    [retry-after] is absent, is parsed by [parseFloat] as a finite number
    other than zero, and it is then that number times 1000; the results
    built from a response carry that hint.  Negative numbers are kept. *)
Theorem C4_retry_hint_nonzero (response : Response) :
  (forall ms,
      retryAfterMs response = Some ms <->
      exists h q,
        retryAfterHeader response = Some h
        /\ JS.parseFloat h = JS.Fin q
        /\ ~ (q == 0)%Q
        /\ ms = (q * 1000)%Q)
  /\ (retryAfterMs response = None <->
      forall h q,
        retryAfterHeader response = Some h ->
        JS.parseFloat h = JS.Fin q -> (q == 0)%Q)
  /\ retryAfterHeader response
     = match resp_headers response !! "retry-after" with
       | Some h => Some h
       | None => resp_headers response !! "x-ratelimit-reset-after"
       end
  /\ retryAfter (successResult response) = retryAfterMs response
  /\ retryAfter (errorResult response) = retryAfterMs response.
Proof.
  split; [|split; [|split; [apply retryAfterHeader_fallback | split; reflexivity]]].
  - intros ms. rewrite retryAfterMs_unfold. split.
    + destruct (retryAfterHeader response) as [h|]; [|discriminate].
      destruct (JS.parseFloat h) as [| neg | q] eqn:Hp; try discriminate.
      destruct (Qeq_bool q 0) eqn:Hq; [discriminate|].
      intros Hms. injection Hms as <-. exists h, q.
      apply Qeq_bool_false in Hq. auto.
    + intros (h & q & -> & -> & Hq & ->).
      apply Qeq_bool_false in Hq. rewrite Hq. reflexivity.
  - rewrite retryAfterMs_unfold. split.
    + intros Hnone h q Hh Hp. rewrite Hh, Hp in Hnone.
      destruct (Qeq_bool q 0) eqn:Hq; [apply Qeq_bool_iff; exact Hq | discriminate].
    + intros Hall. destruct (retryAfterHeader response) as [h|]; [|reflexivity].
      destruct (JS.parseFloat h) as [| neg | q] eqn:Hp; try reflexivity.
      specialize (Hall h q eq_refl Hp).
      apply Qeq_bool_iff in Hall. rewrite Hall. reflexivity.
Qed.

(** C4, counterexample: with [retry-after: -5] the hint is defined (it is
    -5000 ms) although the header is not a positive number. *)
Lemma C4_negative_hint_kept :
  ~ (is_Some (retryAfterMs negative_hint_response)
     <-> finite_positive_hint negative_hint_response).
Proof.
  intros [H _].
  assert (Hs : is_Some (retryAfterMs negative_hint_response))
    by (vm_compute; eauto).
  destruct (H Hs) as (h & q & Hh & Hp & Hq).
  vm_compute in Hh. injection Hh as <-.
  vm_compute in Hp. injection Hp as <-.
  vm_compute in Hq. discriminate.
Qed.

(** ** Timeout and cancellation wiring *)

Lemma timeout_signal_wins {Data} (stringify : Data -> string) url method data init :
  truthy_timeout (init ≫= timeoutMs) = true ->
  abort_instant (make_request stringify url method data init) = init ≫= timeoutMs.
Proof.
  unfold abort_instant, make_request, controller_signal. cbn.
  intros ->. reflexivity.
Qed.

(** C3, at the failing input: with both options given, [fetch] receives the
    timeout controller's signal only, so the attempt is aborted at 5000 ms
    and not when the caller's signal fires at 10 ms. *)
Theorem C3_external_signal_dropped :
  let req := make_request (fun _ : unit => "{}"%string) "https://example.test/hook"
               POST tt cancel_early_init in
  req_signal req = Some {| aborts_at := Some 5000%Q |}
  /\ abort_instant req = Some 5000%Q
  /\ first_to_fire ((cancel_early_init ≫= signal) ≫= aborts_at)
                   (cancel_early_init ≫= timeoutMs) = Some 10%Q
  /\ abort_instant req
     <> first_to_fire ((cancel_early_init ≫= signal) ≫= aborts_at)
                      (cancel_early_init ≫= timeoutMs).
Proof.
  cbv zeta. repeat split; try reflexivity.
  vm_compute. discriminate.
Qed.

(** ** Webhook *)

Lemma for_each_throws {A} (body : A -> Completion unit) (bad : A -> Prop) :
  (forall x, (exists e, body x = Throw e) <-> bad x) ->
  forall xs, (exists e, for_each body xs = Throw e) <-> Exists bad xs.
Proof.
  intros Hbody. induction xs as [|x rest IH]; cbn.
  - split; [intros [e He]; discriminate | intros H; inversion H].
  - rewrite Exists_cons, <- IH, <- Hbody.
    destruct (body x) as [[]|e].
    + split; [auto | intros [[e He]|H]; [discriminate | exact H]].
    + split; [intros _; left; eauto | intros _; eauto].
Qed.

Lemma validate_field_throws f :
  (exists e, validate_field f = Throw e) <-> field_too_long f.
Proof.
  unfold validate_field, field_too_long.
  destruct (255 <? length_or_0 (name f))%nat eqn:H1;
    [apply Nat.ltb_lt in H1 | apply Nat.ltb_ge in H1].
  - split; [auto | eauto].
  - destruct (1024 <? length_or_0 (value f))%nat eqn:H2;
      [apply Nat.ltb_lt in H2 | apply Nat.ltb_ge in H2].
    + split; [auto | eauto].
    + split; [intros [e He]; discriminate | lia].
Qed.

Lemma validate_embed_throws em :
  (exists e, validate_embed em = Throw e) <-> embed_too_big em.
Proof.
  unfold validate_embed, embed_too_big.
  destruct (25 <? size_or_0 (fields em))%nat eqn:H1;
    [apply Nat.ltb_lt in H1 | apply Nat.ltb_ge in H1].
  - split; [auto | eauto].
  - rewrite (for_each_throws validate_field field_too_long validate_field_throws).
    split; [auto | intros [H|H]; [lia | exact H]].
Qed.

Lemma validate_throws w :
  (exists e, validate w = Throw e) <-> violates_limit w.
Proof.
  unfold validate, violates_limit.
  destruct (2000 <? length_or_0 (content w))%nat eqn:H1;
    [apply Nat.ltb_lt in H1 | apply Nat.ltb_ge in H1].
  - split; [auto | eauto].
  - destruct (10 <? size_or_0 (embeds w))%nat eqn:H2;
      [apply Nat.ltb_lt in H2 | apply Nat.ltb_ge in H2].
    + split; [auto | eauto].
    + rewrite (for_each_throws validate_embed embed_too_big validate_embed_throws).
      split; [auto | intros [H|[H|H]]; [lia | lia | exact H]].
Qed.

(** C10: if the webhook breaks a size limit (content over 2000 characters,
    more than 10 embeds, an embed with more than 25 fields, a field name over
    255 or a field value over 1024 characters), [Webhook.send] throws a
    [ValidationError] with no network call and leaves the webhook as it was;
    otherwise it is the client's [send] with method POST on [toObject()]:
    every request it makes is a POST of that payload. *)
Theorem C10_validate_before_send
    (JSON_stringify : IWebhook -> string) (network : nat -> Request -> Attempt)
    (Math_random : nat -> Q) (w : Webhook) (init : option RequestInit) (world0 : World) :
  (violates_limit w ->
   exists e,
     Webhook_send JSON_stringify network Math_random w init world0 = (Throw e, w, world0))
  /\ (~ violates_limit w ->
      exists r s' k,
        send JSON_stringify network Math_random POST (toObject w) init
          {| this := client w; world := world0 |} = (Some r, s')
        /\ Webhook_send JSON_stringify network Math_random w init world0
           = (Normal (Some r), with_client w (this s'), world s')
        /\ requests (world s')
           = repeat (make_request JSON_stringify (webhookUrl (client w)) POST (toObject w) init)
               (S k) ++ requests world0
        /\ req_method (make_request JSON_stringify (webhookUrl (client w)) POST (toObject w) init)
           = POST).
Proof.
  split.
  - intros Hv. apply validate_throws in Hv as [e He].
    exists e. unfold Webhook_send. rewrite He. reflexivity.
  - intros Hv.
    assert (Hok : validate w = Normal tt).
    { destruct (validate w) as [[]|e] eqn:E; [reflexivity|].
      exfalso. apply Hv, validate_throws. eauto. }
    pose (s0 := {| this := client w; world := world0 |}).
    destruct (send_fuel_run JSON_stringify network Math_random POST (toObject w) init
                (S (budget (this s0))) s0 (Nat.lt_succ_diag_r _))
      as (r & s' & k & Hrun & _ & _ & _ & Hq & _).
    assert (Hsend : send JSON_stringify network Math_random POST (toObject w) init
                      {| this := client w; world := world0 |} = (Some r, s'))
      by exact Hrun.
    exists r, s', k. split; [exact Hsend|]. split.
    + unfold Webhook_send. rewrite Hok, Hsend. reflexivity.
    + split; [exact Hq | reflexivity].
Qed.

(** ** Concrete runs *)

Example parseFloat_samples :
  JS.parseFloat "1" = JS.Fin (1 * 1)
  /\ JS.parseFloat "2.5e1x" = JS.Fin (25 * 1)
  /\ JS.parseFloat "abc" = JS.NaN
  /\ JS.parseFloat "." = JS.NaN
  /\ JS.parseFloat "-Infinity" = JS.Infinity true
  /\ JS.parseFloat "1e400" = JS.Infinity false
  /\ JS.truthy_number (JS.parseFloat "-0") = false
  /\ JS.truthy_number (JS.parseFloat "1e-400") = false
  /\ JS.truthy_number (JS.parseFloat " -5") = true.
Proof. vm_compute. repeat split; reflexivity. Qed.

Example scenario_A :
  let '(r, s') := send Demo.stringify Demo.limited_then_ok Demo.half POST tt None (Demo.fresh 2) in
  (ok <$> r) = Some true /\ (status <$> r) = Some 204
  /\ calls (world s') = 3%nat /\ retryCount (this s') = 0%nat.
Proof. vm_compute. repeat split; reflexivity. Qed.

Example default_config_merge :
  retryConfig (new_RequestClient Demo.url
                 (Some {| maxRetries_opt := Some 5; baseDelay_opt := Some 500%Q;
                          maxDelay_opt := None |}))
  = {| maxRetries := 5; baseDelay := 500; maxDelay := 60000 |}.
Proof. reflexivity. Qed.

Lemma C1_bounded_retries_witness :
  exists r s',
    send Demo.stringify (Demo.always (Responded (Demo.response_of 500 ∅))) Demo.half
      POST tt None (Demo.fresh 2) = (Some r, s')
    /\ calls (world s') = 3%nat
    /\ ok r = false
    /\ status r = 500.
Proof.
  destruct (C1_bounded_retries Demo.stringify
              (Demo.always (Responded (Demo.response_of 500 ∅))) Demo.half
              2 POST tt None (Demo.fresh 2))
    as (r & s' & Hrun & Hcalls & Hok & _ & Hstatus).
  - lia.
  - reflexivity.
  - reflexivity.
  - intros j. simpl. right. lia.
  - exists r, s'. repeat split; assumption.
Defined.

Lemma C7_terminal_status_witness :
  exists r s' msg,
    send Demo.stringify (Demo.always (Responded (Demo.response_of 404 ∅))) Demo.half
      POST tt None (Demo.fresh 3) = (Some r, s')
    /\ calls (world s') = 1%nat
    /\ ok r = false
    /\ status r = 404
    /\ error r = Some msg
    /\ msg <> EmptyString.
Proof.
  apply (C7_terminal_status Demo.stringify
           (Demo.always (Responded (Demo.response_of 404 ∅))) Demo.half
           POST tt None (Demo.fresh 3) (Demo.response_of 404 ∅)).
  - reflexivity.
  - simpl. lia.
  - simpl. lia.
Defined.

Lemma C8_transport_failure_witness :
  exists r s',
    send Demo.stringify (Demo.always (Threw (ThrownError "Network failure"))) Demo.half
      POST tt None (Demo.fresh 0) = (Some r, s')
    /\ calls (world s') = 1%nat
    /\ ok r = false
    /\ status r = 0
    /\ retryAfter r = None
    /\ error r = Some "Network failure"%string.
Proof.
  destruct (C8_transport_failure Demo.stringify
              (Demo.always (Threw (ThrownError "Network failure"))) Demo.half
              POST tt None (Demo.fresh 0) (ThrownError "Network failure"))
    as (r & s' & Hrun & Hcalls & Hok & Hstatus & Hhint & Hmsg & _).
  - reflexivity.
  - simpl. lia.
  - exists r, s'. repeat split; try assumption.
    apply Hmsg. simpl. discriminate.
Defined.

Lemma C2_hint_precedence_witness :
  retries (this (Demo.fresh 2))
    (attempt_at Demo.stringify Demo.limited_then_ok (Demo.fresh 2) POST tt None) = true
  /\ exists s1 wait,
       sleeps (world s1) = [wait]
       /\ (wait == 1000)%Q.
Proof.
  split; [reflexivity|].
  destruct (C2_hint_precedence Demo.stringify Demo.limited_then_ok Demo.half
              2 POST tt None (Demo.fresh 2) eq_refl)
    as (s1 & wait & Hz & _ & Hhint & _).
  exists s1, wait. split; [exact Hz|].
  rewrite (Hhint (Demo.response_of 429 {[ "x-ratelimit-reset-after" := "1" ]})
             (1 * 1000)%Q eq_refl eq_refl).
  - reflexivity.
  - vm_compute. reflexivity.
Defined.

Example server_error_ignores_hint :
  let s := Demo.fresh 2 in
  let net := Demo.always (Responded (Demo.response_of 503 {[ "retry-after" := "7" ]})) in
  retryAfterMs (Demo.response_of 503 {[ "retry-after" := "7" ]}) = Some (7 * 1 * 1000)%Q
  /\ exists s',
       send Demo.stringify net Demo.half POST tt None s
       = (Some (errorResult (Demo.response_of 503 {[ "retry-after" := "7" ]})), s')
       /\ Forall2 Qeq (sleeps (world s')) [40; 20]%Q.
Proof.
  cbv zeta. split; [vm_compute; reflexivity|].
  eexists. split; [vm_compute; reflexivity|].
  repeat constructor; vm_compute; reflexivity.
Qed.

Lemma C5_backoff_bounds_witness :
  let d := fst (calculateBackoff Demo.half (Demo.fresh 3)) in
  (d == 10)%Q /\ (0 <= d)%Q /\ (d <= 60000 * (12 # 10))%Q.
Proof.
  destruct (C5_backoff_bounds Demo.half (Demo.fresh 3)) as (Hd & H0 & H1 & _).
  - reflexivity.
  - unfold Qle. simpl. lia.
  - split; unfold Qle; simpl; lia.
  - cbv zeta. split; [reflexivity|]. split; [exact H0 | exact H1].
Defined.

Lemma C10_validate_before_send_witness :
  (exists e,
     Webhook_send DemoHook.stringify DemoHook.no_content Demo.half
       (DemoHook.hook DemoHook.too_long) None Demo.empty_world
     = (Throw e, DemoHook.hook DemoHook.too_long, Demo.empty_world))
  /\ (exists r s' k,
        Webhook_send DemoHook.stringify DemoHook.no_content Demo.half
          (DemoHook.hook "Hello, world!") None Demo.empty_world
        = (Normal (Some r), with_client (DemoHook.hook "Hello, world!") (this s'), world s')
        /\ requests (world s')
           = repeat (make_request DemoHook.stringify Demo.url POST
                       (toObject (DemoHook.hook "Hello, world!")) None) (S k) ++ []).
Proof.
  split.
  - apply (proj1 (C10_validate_before_send DemoHook.stringify DemoHook.no_content Demo.half
                    (DemoHook.hook DemoHook.too_long) None Demo.empty_world)).
    left. apply Nat.ltb_lt. vm_compute. reflexivity.
  - destruct (proj2 (C10_validate_before_send DemoHook.stringify DemoHook.no_content Demo.half
                       (DemoHook.hook "Hello, world!") None Demo.empty_world))
      as (r & s' & k & _ & Hsend & Hq & _).
    + intros [H | [H | H]].
      * apply Nat.ltb_lt in H. vm_compute in H. discriminate.
      * apply Nat.ltb_lt in H. vm_compute in H. discriminate.
      * inversion H.
    + exists r, s', k. split; [exact Hsend | exact Hq].
Defined.

(** * Further properties *)

(** ** The retry loop: where it stops and what it sends *)

Section LoopFacts.

Context {Data : Type}.
Variable JSON_stringify : Data -> string.
Variable network : nat -> Request -> Attempt.
Variable Math_random : nat -> Q.

Lemma resp_ok_range (response : Response) :
  resp_ok response = true <-> 200 <= resp_status response <= 299.
Proof.
  unfold resp_ok. rewrite andb_true_iff, !Z.leb_le. reflexivity.
Qed.

Lemma ok_not_retryable (response : Response) :
  resp_ok response = true -> retryable_status (resp_status response) = false.
Proof.
  rewrite resp_ok_range. intros H. unfold retryable_status.
  replace (resp_status response =? 429) with false by (symmetry; apply Z.eqb_neq; lia).
  replace (resp_status response =? 0) with false by (symmetry; apply Z.eqb_neq; lia).
  replace (500 <=? resp_status response) with false by (symmetry; apply Z.leb_gt; lia).
  reflexivity.
Qed.

(** A 2xx answer to the first attempt ends the call at once: one network
    call, no wait, no draw of [Math.random], the counter at 0 and the
    success result (status, hint and non-empty body text) returned. *)
Theorem success_short_circuit method data init s response :
  attempt_at JSON_stringify network s method data init = Responded response ->
  200 <= resp_status response <= 299 ->
  exists s',
    send JSON_stringify network Math_random method data init s
    = (Some (successResult response), s')
    /\ calls (world s') = S (calls (world s))
    /\ sleeps (world s') = sleeps (world s)
    /\ draws (world s') = draws (world s)
    /\ retryCount (this s') = 0%nat
    /\ ok (successResult response) = true
    /\ status (successResult response) = resp_status response
    /\ error (successResult response) = None.
Proof.
  intros Ha Hrange. apply resp_ok_range in Hrange.
  assert (Hr : retries (this s) (attempt_at JSON_stringify network s method data init) = false).
  { unfold retries. rewrite Ha, Hrange. cbn. apply andb_false_r. }
  destruct (send_body_terminal JSON_stringify network Math_random
              (send_fuel JSON_stringify network Math_random (budget (this s)) method data init)
              method data init s Hr)
    as (s' & Hbody & Hc & _ & _ & Hq & Hz & Hd & _).
  rewrite Ha in Hbody. cbn in Hbody. rewrite Hrange in Hbody.
  exists s'. split; [exact Hbody|].
  split; [unfold calls; rewrite Hq; reflexivity|].
  repeat split; assumption.
Qed.

(** The loop stops at the first attempt that is not answered by a retry:
    if the first [k] attempts are transient failures, [k] is within the
    budget, and attempt [k] is not transient (or the budget is then used
    up), [send] makes exactly [k + 1] network calls and [k] waits and
    returns the result of attempt [k]. *)
Theorem first_decisive_attempt method data init s k :
  (k <= budget (this s))%nat ->
  (forall j, (j < k)%nat ->
     transient (network (calls (world s) + j)
                  (make_request JSON_stringify (webhookUrl (this s)) method data init)) = true) ->
  ((k < budget (this s))%nat ->
     transient (network (calls (world s) + k)
                  (make_request JSON_stringify (webhookUrl (this s)) method data init)) = false) ->
  exists s',
    send JSON_stringify network Math_random method data init s
    = (Some (terminal_result
               (network (calls (world s) + k)
                  (make_request JSON_stringify (webhookUrl (this s)) method data init))), s')
    /\ calls (world s') = (calls (world s) + k + 1)%nat
    /\ length (sleeps (world s')) = (length (sleeps (world s)) + k)%nat
    /\ retryCount (this s') = 0%nat.
Proof.
  intros Hk Hbefore Hat.
  destruct (send_fuel_run JSON_stringify network Math_random method data init
              (S (budget (this s))) s (Nat.lt_succ_diag_r _))
    as (r & s' & k' & Hrun & Hc & _ & _ & Hq & _ & Hz & Hle & Hall & Hlast & Hres).
  assert (Heq : k' = k).
  { destruct (Nat.lt_trichotomy k' k) as [Hlt | [Heq | Hgt]]; [|exact Heq|].
    - specialize (Hlast ltac:(lia)). rewrite (Hbefore k' Hlt) in Hlast. discriminate.
    - specialize (Hat ltac:(lia)). rewrite (Hall k Hgt) in Hat. discriminate. }
  subst k'. exists s'. rewrite <- Hres.
  split; [exact Hrun|].
  split; [eapply calls_after_run; exact Hq|].
  split; assumption.
Qed.

(** [send] never makes more than [max(0, maxRetries - retryCount) + 1]
    network calls; every call of one [send] carries the same request (URL,
    method, headers, body, signal), and there is one wait between two
    consecutive calls. *)
Theorem calls_bounded_and_identical method data init s :
  exists r s' k,
    send JSON_stringify network Math_random method data init s = (Some r, s')
    /\ (k <= budget (this s))%nat
    /\ requests (world s')
       = repeat (make_request JSON_stringify (webhookUrl (this s)) method data init) (S k)
         ++ requests (world s)
    /\ (calls (world s') <= calls (world s) + budget (this s) + 1)%nat
    /\ length (sleeps (world s')) = (length (sleeps (world s)) + k)%nat.
Proof.
  destruct (send_fuel_run JSON_stringify network Math_random method data init
              (S (budget (this s))) s (Nat.lt_succ_diag_r _))
    as (r & s' & k & Hrun & _ & _ & _ & Hq & _ & Hz & Hle & _).
  exists r, s', k. split; [exact Hrun|]. split; [exact Hle|]. split; [exact Hq|].
  split; [|exact Hz].
  rewrite (calls_after_run _ _ _ _ Hq). lia.
Qed.

(** Whatever the outcome, the timeout timers armed during [send] are all
    cleared when it returns, and the instance keeps its URL and policy. *)
Theorem timers_cleared method data init s :
  exists r s',
    send JSON_stringify network Math_random method data init s = (Some r, s')
    /\ armed (world s') = armed (world s)
    /\ webhookUrl (this s') = webhookUrl (this s)
    /\ retryConfig (this s') = retryConfig (this s).
Proof.
  destruct (send_fuel_run JSON_stringify network Math_random method data init
              (S (budget (this s))) s (Nat.lt_succ_diag_r _))
    as (r & s' & k & Hrun & _ & Hu & Hg & _ & Ha & _).
  exists r, s'. repeat split; assumption.
Qed.

(** The headers of the request: what the caller gave, plus
    [Content-Type: application/json] unless the caller gave that key; this
    holds for every method, GET included. *)
Theorem request_headers url method data init (key : string) :
  req_headers (make_request JSON_stringify url method data init) !! key
  = match default ∅ (init ≫= headers) !! key with
    | Some v => Some v
    | None => if String.eqb key "Content-Type" then Some "application/json"%string else None
    end.
Proof.
  unfold make_request. cbn [req_headers].
  rewrite lookup_union.
  destruct (default ∅ (init ≫= headers) !! key) as [v|].
  - destruct (_ !! key); reflexivity.
  - destruct (String.eqb key "Content-Type") eqn:Hk.
    + apply String.eqb_eq in Hk. subst key. rewrite lookup_singleton_eq. reflexivity.
    + apply String.eqb_neq in Hk. rewrite lookup_singleton_ne by congruence. reflexivity.
Qed.

(** When [timeoutMs] is absent or 0 no controller is made and [fetch]
    receives the caller's signal, so the caller's cancellation reaches the
    request; the body is omitted exactly for GET. *)
Theorem signal_without_timeout url method data init :
  truthy_timeout (init ≫= timeoutMs) = false ->
  req_signal (make_request JSON_stringify url method data init) = init ≫= signal
  /\ abort_instant (make_request JSON_stringify url method data init)
     = (init ≫= signal) ≫= aborts_at
  /\ (req_body (make_request JSON_stringify url method data init) = None <-> method = GET).
Proof.
  intros Ht. unfold abort_instant, make_request, controller_signal. cbn.
  rewrite Ht. cbn. repeat split; try reflexivity.
  - destruct method; [reflexivity | discriminate | discriminate].
  - intros ->. reflexivity.
Qed.

End LoopFacts.

(** ** Backoff: size of the jitter, doubling and the cap *)

Lemma pow2_le (n m : nat) : (n <= m)%nat -> (pow2 n <= pow2 m)%Q.
Proof.
  intros H. unfold pow2. rewrite <- Zle_Qle.
  apply Z.pow_le_mono_r; lia.
Qed.

(** The jitter moves the delay by at most 10% of the exponential term in
    either direction (the factor 0.2 multiplies a draw centred on 0 with
    half-width 0.5). *)
Theorem jitter_ten_percent (cfg : RetryConfig) (n : nat) (u : Q) :
  (0 < baseDelay cfg)%Q ->
  (baseDelay cfg <= maxDelay cfg)%Q ->
  (0 <= u <= 1)%Q ->
  (exponential cfg n * (9 # 10) <= backoff cfg n u)%Q
  /\ (backoff cfg n u <= exponential cfg n * (11 # 10))%Q.
Proof.
  intros Hpos Hle Hu.
  rewrite (backoff_linear cfg Hpos Hle n u Hu).
  pose proof (exponential_nonneg cfg Hpos Hle n) as He.
  split; rewrite !(Qmult_comm (exponential cfg n)); apply Qmult_le_compat_r; lra.
Qed.

(** Below the cap the exponential term doubles with each retry; once
    [baseDelay * 2^n] has reached [maxDelay] it stays at [maxDelay]. *)
Theorem doubling_then_cap (cfg : RetryConfig) (n : nat) :
  (0 < baseDelay cfg)%Q ->
  (baseDelay cfg <= maxDelay cfg)%Q ->
  ((baseDelay cfg * pow2 (S n) <= maxDelay cfg)%Q ->
   (exponential cfg (S n) == 2 * exponential cfg n)%Q)
  /\ ((maxDelay cfg <= baseDelay cfg * pow2 n)%Q ->
      forall m, (n <= m)%nat -> (exponential cfg m == maxDelay cfg)%Q).
Proof.
  intros Hpos Hle. split.
  - intros Hcap. unfold exponential.
    pose proof (pow2_pos n) as Hp. pose proof (pow2_succ n) as Hs.
    assert (Hn : (baseDelay cfg * pow2 n <= maxDelay cfg)%Q).
    { apply Qle_trans with (baseDelay cfg * pow2 (S n))%Q; [|exact Hcap].
      rewrite Hs. assert (0 <= baseDelay cfg * pow2 n)%Q
        by (apply Qmult_le_0_compat; lra). lra. }
    rewrite (Q.min_r _ _ Hcap), (Q.min_r _ _ Hn), Hs. ring.
  - intros Hcap m Hm. unfold exponential. apply Q.min_l.
    apply Qle_trans with (baseDelay cfg * pow2 n)%Q; [exact Hcap|].
    rewrite !(Qmult_comm (baseDelay cfg)).
    apply Qmult_le_compat_r; [apply pow2_le, Hm | lra].
Qed.

Section FirstWait.

Context {Data : Type}.
Variable JSON_stringify : Data -> string.
Variable network : nat -> Request -> Attempt.
Variable Math_random : nat -> Q.

(** The first retry already waits about twice [baseDelay]: from a counter
    at 0, after a transient failure other than a 429, the wait requested
    before the second attempt lies between 1.8 and 2.2 times [baseDelay]
    (when [2 * baseDelay <= maxDelay]); it is never [baseDelay] itself. *)
Theorem first_retry_waits_twice_base fuel method data init s :
  retries (this s) (attempt_at JSON_stringify network s method data init) = true ->
  attempt_status (attempt_at JSON_stringify network s method data init) <> 429 ->
  retryCount (this s) = 0%nat ->
  (0 < baseDelay (retryConfig (this s)))%Q ->
  (2 * baseDelay (retryConfig (this s)) <= maxDelay (retryConfig (this s)))%Q ->
  (0 <= Math_random (draws (world s)) <= 1)%Q ->
  exists s1 wait,
    sleeps (world s1) = wait :: sleeps (world s)
    /\ (forall r s2,
          send_fuel JSON_stringify network Math_random fuel method data init s1 = (r, s2) ->
          exists s',
            send_fuel JSON_stringify network Math_random (S fuel) method data init s = (r, s')
            /\ sleeps (world s') = sleeps (world s2))
    /\ ((18 # 10) * baseDelay (retryConfig (this s)) <= wait)%Q
    /\ (wait <= (22 # 10) * baseDelay (retryConfig (this s)))%Q.
Proof.
  intros Hr Hne Hcount Hpos Hcap Hu.
  destruct (send_body_retry JSON_stringify network Math_random
              (send_fuel JSON_stringify network Math_random fuel method data init)
              method data init s Hr)
    as (s1 & _ & _ & _ & _ & Hz & Hk).
  eexists s1, _. split; [exact Hz|]. split.
  - intros r s2 Hrun. destruct (Hk r s2 Hrun) as (s' & Hbody & _ & _ & Hz' & _).
    exists s'. split; assumption.
  - rewrite wait_roundtrip.
    assert (Hd : chosen_delay (retryConfig (this s)) (S (retryCount (this s)))
                   (Math_random (draws (world s)))
                   (attempt_at JSON_stringify network s method data init)
                 = backoff (retryConfig (this s)) 1 (Math_random (draws (world s)))).
    { rewrite Hcount.
      destruct (attempt_at JSON_stringify network s method data init) as [response|e];
        cbn in *; [|reflexivity].
      replace (resp_status response =? 429) with false
        by (symmetry; apply Z.eqb_neq; exact Hne).
      reflexivity. }
    rewrite Hd.
    assert (Hle : (baseDelay (retryConfig (this s)) <= maxDelay (retryConfig (this s)))%Q) by lra.
    rewrite (backoff_linear _ Hpos Hle 1 _ Hu).
    assert (He : (exponential (retryConfig (this s)) 1
                  == 2 * baseDelay (retryConfig (this s)))%Q).
    { unfold exponential. change (pow2 1) with 2%Q. rewrite Q.min_r.
      - ring.
      - lra. }
    rewrite He. split; nra.
Qed.

End FirstWait.

(** ** Embed: what the builder methods accept and keep *)

Lemma assertFieldName_passes (nm : option string) :
  assertFieldName nm = None <-> exists n, nm = Some n /\ (String.length n <= 256)%nat.
Proof.
  unfold assertFieldName. destruct nm as [n|].
  - destruct (256 <? String.length n)%nat eqn:E;
      [apply Nat.ltb_lt in E | apply Nat.ltb_ge in E].
    + split; [discriminate | intros (n' & Hn & Hl); injection Hn as <-; lia].
    + split; [eauto | reflexivity].
  - split; [discriminate | intros (n & Hn & _); discriminate].
Qed.

Lemma assertFieldValue_passes (val : option string) :
  assertFieldValue val = None
  <-> exists v, val = Some v /\ (1 <= String.length v <= 1024)%nat.
Proof.
  unfold assertFieldValue. destruct val as [v|].
  - destruct (String.length v =? 0)%nat eqn:E0;
      [apply Nat.eqb_eq in E0 | apply Nat.eqb_neq in E0].
    + split; [discriminate | intros (v' & Hv & Hl); injection Hv as <-; lia].
    + destruct (1024 <? String.length v)%nat eqn:E;
        [apply Nat.ltb_lt in E | apply Nat.ltb_ge in E].
      * split; [discriminate | intros (v' & Hv & Hl); injection Hv as <-; lia].
      * split; [intros _; exists v; split; [reflexivity | lia] | reflexivity].
  - split; [discriminate | intros (v & Hv & _); discriminate].
Qed.

Lemma field_checks_pass (f : IField) :
  match assertFieldName (name f) with
  | Some r => Some r
  | None => assertFieldValue (value f)
  end = None <-> field_within_limits f.
Proof.
  unfold field_within_limits.
  rewrite <- assertFieldName_passes, <- assertFieldValue_passes.
  destruct (assertFieldName (name f)); [split; [discriminate | intros [H _]; discriminate]|].
  split; [auto | intros [_ H]; exact H].
Qed.

Lemma arg_checks_pass (arg : FieldArg) :
  match arg with
  | FieldParams n v _ =>
      match assertFieldName (Some n) with
      | Some r => Some r
      | None => assertFieldValue v
      end
  | FieldObject f =>
      match assertFieldName (name f) with
      | Some r => Some r
      | None => assertFieldValue (value f)
      end
  end = None <-> field_within_limits (pushed_field arg).
Proof.
  destruct arg as [f | n v i]; [apply field_checks_pass|].
  rewrite <- (field_checks_pass (pushed_field (FieldParams n v i))).
  unfold pushed_field. cbn [name value].
  destruct (assertFieldName (Some n)); [reflexivity|].
  destruct v as [[|c v]|]; reflexivity.
Qed.

Lemma assert_fields_pass (fs : list IField) :
  assert_fields fs = None <-> Forall field_within_limits fs.
Proof.
  induction fs as [|f rest IH]; cbn.
  - split; [constructor | reflexivity].
  - rewrite Forall_cons, <- IH, <- field_checks_pass.
    destruct (assertFieldName (name f)); [split; [discriminate | intros [H _]; discriminate]|].
    destruct (assertFieldValue (value f)); [split; [discriminate | intros [H _]; discriminate]|].
    split; [auto | intros [_ H]; exact H].
Qed.

Lemma addField_cases (arg : FieldArg) (e : Embed) :
  (snd (addField arg e) = None
   <-> (size_or_0 (em_fields e) < 25)%nat /\ field_within_limits (pushed_field arg))
  /\ (snd (addField arg e) = None ->
      fst (addField arg e)
      = with_fields e (Some (or_empty (em_fields e) ++ [pushed_field arg])))
  /\ (snd (addField arg e) <> None ->
      fst (addField arg e) = with_fields e (Some (or_empty (em_fields e)))).
Proof.
  assert (Hsize : size_or_0 (em_fields e) = length (or_empty (em_fields e)))
    by (destruct (em_fields e); reflexivity).
  pose proof (arg_checks_pass arg) as Hchk.
  unfold addField. rewrite Hsize.
  destruct (25 <=? length (or_empty (em_fields e)))%nat eqn:Hfull;
    [apply Nat.leb_le in Hfull | apply Nat.leb_gt in Hfull]; cbn [fst snd].
  - split; [split; [discriminate | lia]|]. split; [discriminate | reflexivity].
  - destruct (match arg with FieldObject _ => _ | FieldParams _ _ _ => _ end) as [r|].
    + cbn [fst snd]. split; [|split; [discriminate | reflexivity]].
      split; [discriminate|]. intros [_ H]. apply Hchk in H. discriminate.
    + replace (25 <? length (or_empty (em_fields e) ++ [pushed_field arg]))%nat with false
        by (symmetry; apply Nat.ltb_ge; rewrite length_app; cbn; lia).
      cbn [fst snd]. split; [|split; [reflexivity | congruence]].
      split; [intros _; split; [exact Hfull | apply Hchk; reflexivity] | reflexivity].
Qed.

(** [addField] succeeds exactly when fewer than 25 fields are present and
    the new field has a name of at most 256 characters and a value of 1 to
    1024 characters; it then appends that field.  When it throws nothing
    was appended (the length check made after the push never fires), but
    an undefined [fields] member has become the empty array. *)
Theorem addField_outcome (arg : FieldArg) (e : Embed) :
  (snd (addField arg e) = None
   <-> (size_or_0 (em_fields e) < 25)%nat /\ field_within_limits (pushed_field arg))
  /\ (snd (addField arg e) = None ->
      fst (addField arg e)
      = with_fields e (Some (or_empty (em_fields e) ++ [pushed_field arg])))
  /\ (snd (addField arg e) <> None ->
      fst (addField arg e) = with_fields e (Some (or_empty (em_fields e)))).
Proof. exact (addField_cases arg e). Qed.

Lemma setFields_cases (fs : list IField) (e : Embed) :
  (snd (setFields fs e) = None
   <-> (length fs <= 25)%nat /\ Forall field_within_limits fs)
  /\ (snd (setFields fs e) = None -> fst (setFields fs e) = with_fields e (Some fs))
  /\ (snd (setFields fs e) <> None -> fst (setFields fs e) = e).
Proof.
  pose proof (assert_fields_pass fs) as Hchk.
  unfold setFields.
  destruct (25 <? length fs)%nat eqn:Hlen;
    [apply Nat.ltb_lt in Hlen | apply Nat.ltb_ge in Hlen]; cbn [fst snd].
  - split; [split; [discriminate | lia]|]. split; [discriminate | reflexivity].
  - destruct (assert_fields fs) as [r|]; cbn [fst snd].
    + split; [|split; [discriminate | reflexivity]].
      split; [discriminate|]. intros [_ H]. apply Hchk in H. discriminate.
    + split; [|split; [reflexivity | congruence]].
      split; [intros _; split; [exact Hlen | apply Hchk; reflexivity] | reflexivity].
Qed.

(** [setFields] is all or nothing: it succeeds exactly when the array has
    at most 25 fields that are all within the limits, and then replaces
    the fields by that array; when it throws the embed is unchanged. *)
Theorem setFields_outcome (fs : list IField) (e : Embed) :
  (snd (setFields fs e) = None
   <-> (length fs <= 25)%nat /\ Forall field_within_limits fs)
  /\ (snd (setFields fs e) = None -> fst (setFields fs e) = with_fields e (Some fs))
  /\ (snd (setFields fs e) <> None -> fst (setFields fs e) = e).
Proof. exact (setFields_cases fs e). Qed.

Lemma size_of_or_empty {A} (xs : option (list A)) :
  size_or_0 xs = length (or_empty xs).
Proof. destruct xs; reflexivity. Qed.

Lemma call_embed_within_limits (c : EmbedCall) (e : Embed) :
  embed_within_limits e -> embed_within_limits (fst (call_embed c e)).
Proof.
  intros (Ht & Hd & Hn & Hf). destruct c as [t | u | d | col | arg | fs]; cbn [call_embed].
  - unfold setTitle. destruct (256 <? String.length t)%nat eqn:E;
      [apply Nat.ltb_lt in E | apply Nat.ltb_ge in E]; cbn [fst].
    + repeat split; assumption.
    + repeat split; assumption.
  - repeat split; assumption.
  - unfold setDescription. destruct (4096 <? String.length d)%nat eqn:E;
      [apply Nat.ltb_lt in E | apply Nat.ltb_ge in E]; cbn [fst].
    + repeat split; assumption.
    + repeat split; assumption.
  - repeat split; assumption.
  - destruct (addField_cases arg e) as (Hiff & Hok & Hthrow).
    destruct (snd (addField arg e)) as [r|] eqn:Hs.
    + rewrite Hthrow by discriminate.
      repeat split; try assumption.
      cbn. rewrite size_of_or_empty in Hn. exact Hn.
    + rewrite (Hok eq_refl). destruct (proj1 Hiff eq_refl) as [Hlen Hfield].
      rewrite size_of_or_empty in Hlen.
      repeat split; try assumption.
      * cbn. rewrite length_app. cbn. lia.
      * cbn. apply Forall_app. split; [exact Hf | constructor; [exact Hfield | constructor]].
  - destruct (setFields_cases fs e) as (Hiff & Hok & Hthrow).
    destruct (snd (setFields fs e)) as [r|] eqn:Hs.
    + rewrite Hthrow by discriminate. repeat split; assumption.
    + rewrite (Hok eq_refl). destruct (proj1 Hiff eq_refl) as [Hlen Hfields].
      repeat split; assumption.
Qed.

Lemma run_embed_within_limits (cs : list EmbedCall) :
  forall e, embed_within_limits e -> embed_within_limits (run_embed cs e).
Proof.
  induction cs as [|c cs IH]; intros e He; [exact He|].
  cbn. apply IH, call_embed_within_limits, He.
Qed.

Lemma new_Embed_within_limits : embed_within_limits new_Embed.
Proof. repeat split; cbn; try lia. constructor. Qed.

(** Whatever chain of [setTitle], [setURL], [setDescription], [setColor],
    [addField] and [setFields] calls is made on a new [Embed], throwing or
    not, the embed keeps a title of at most 256 characters, a description
    of at most 4096, at most 25 fields, and in every field a name of at
    most 256 characters and a value of 1 to 1024 characters. *)
Theorem embed_builder_invariant (cs : list EmbedCall) :
  embed_within_limits (run_embed cs new_Embed).
Proof. apply run_embed_within_limits, new_Embed_within_limits. Qed.

(** A chain of [addField] calls with fields within the limits that fits
    under 25 appends the fields in call order, and changes nothing else. *)
Theorem addField_chain_appends (args : list FieldArg) :
  forall e,
    Forall (fun a => field_within_limits (pushed_field a)) args ->
    (size_or_0 (em_fields e) + length args <= 25)%nat ->
    or_empty (em_fields (run_embed (map CallAddField args) e))
    = or_empty (em_fields e) ++ map pushed_field args
    /\ em_title (run_embed (map CallAddField args) e) = em_title e
    /\ em_description (run_embed (map CallAddField args) e) = em_description e
    /\ em_url (run_embed (map CallAddField args) e) = em_url e
    /\ em_color (run_embed (map CallAddField args) e) = em_color e.
Proof.
  induction args as [|a args IH]; intros e Hall Hlen.
  - cbn. rewrite app_nil_r. repeat split.
  - apply Forall_cons in Hall as [Ha Hall]. cbn [length] in Hlen.
    destruct (addField_cases a e) as (Hiff & Hok & _).
    assert (Hs : snd (addField a e) = None) by (apply Hiff; split; [lia | exact Ha]).
    specialize (Hok Hs).
    cbn [map run_embed fold_left call_embed].
    change (fold_left (fun acc c => fst (call_embed c acc)) (map CallAddField args)
              (fst (addField a e)))
      with (run_embed (map CallAddField args) (fst (addField a e))).
    rewrite Hok.
    destruct (IH (with_fields e (Some (or_empty (em_fields e) ++ [pushed_field a]))) Hall)
      as (Hf & Ht & Hd & Hu & Hc).
    { cbn. rewrite length_app, <- size_of_or_empty. cbn. lia. }
    rewrite Hf, Ht, Hd, Hu, Hc. cbn. rewrite <- app_assoc. repeat split.
Qed.

(** ** Embed: colours given as hexadecimal strings *)






(** ** Webhook: the builder methods and [validate] *)

Lemma Exists_under_Forall {A} (P Q R : A -> Prop) (l : list A) :
  Forall P l ->
  (forall x, P x -> (Q x <-> R x)) ->
  (Exists Q l <-> Exists R l).
Proof.
  intros Hall Heq. induction Hall as [|x l Hx Hl IH].
  - split; intros H; inversion H.
  - rewrite !Exists_cons, IH, (Heq x Hx). reflexivity.
Qed.

Lemma toObject_within_limits (e : Embed) :
  embed_within_limits e -> payload_embed_within_limits (Embed_toObject e).
Proof. intros (_ & _ & Hn & Hf). split; assumption. Qed.

Lemma call_webhook_within_limits (c : WebhookCall) (w : Webhook) :
  match c with CallAddEmbed e => embed_within_limits e | _ => True end ->
  webhook_within_limits w ->
  webhook_within_limits (match call_webhook c w with Normal w' => w' | Throw _ => w end).
Proof.
  intros Hc (Hcontent & Hsize & Hall).
  destruct c as [u | u | b | t | e | f]; cbn [call_webhook];
    try (repeat split; assumption).
  - unfold setContent. destruct (2000 <? String.length t)%nat eqn:E;
      [apply Nat.ltb_lt in E | apply Nat.ltb_ge in E];
      repeat split; assumption.
  - apply toObject_within_limits in Hc. unfold addEmbed.
    destruct (embeds w) as [es|] eqn:Hes.
    + destruct (length es <? 10)%nat eqn:E;
        [apply Nat.ltb_lt in E | apply Nat.ltb_ge in E].
      * repeat split; [exact Hcontent | cbn; rewrite length_app; cbn; lia |].
        cbn. apply Forall_app. split; [exact Hall | constructor; [exact Hc | constructor]].
      * repeat split; [exact Hcontent | rewrite Hes; exact Hsize | rewrite Hes; exact Hall].
    + repeat split; [exact Hcontent | cbn; lia | cbn; constructor; [exact Hc | constructor]].
Qed.

Lemma run_webhook_within_limits (cs : list WebhookCall) :
  forall w,
    Forall embed_within_limits (added_embeds cs) ->
    webhook_within_limits w ->
    webhook_within_limits (run_webhook cs w).
Proof.
  induction cs as [|c cs IH]; intros w Hadded Hw; [exact Hw|].
  cbn [run_webhook fold_left].
  apply IH.
  - destruct c; cbn [added_embeds] in Hadded; try exact Hadded.
    apply Forall_cons in Hadded as [_ H]. exact H.
  - apply call_webhook_within_limits; [|exact Hw].
    destruct c; cbn [added_embeds] in Hadded; try exact I.
    apply Forall_cons in Hadded as [H _]. exact H.
Qed.

Lemma field_too_long_iff_256 (f : IField) :
  field_within_limits f -> (field_too_long f <-> length_or_0 (name f) = 256%nat).
Proof.
  intros ((n & Hn & Hnl) & (v & Hv & Hvl)). unfold field_too_long.
  rewrite Hn, Hv. cbn. lia.
Qed.

Lemma validate_within_limits (w : Webhook) :
  webhook_within_limits w ->
  ((exists e, validate w = Throw e) <-> has_name_of_256 w).
Proof.
  intros (Hcontent & Hsize & Hall).
  rewrite validate_throws. unfold violates_limit, has_name_of_256.
  rewrite <- (Exists_under_Forall payload_embed_within_limits embed_too_big
                (fun em => Exists (fun f => length_or_0 (name f) = 256%nat)
                             (or_empty (fields em)))
                (or_empty (embeds w)) Hall).
  - split; [intros [H | [H | H]]; [lia | lia | exact H] | auto].
  - intros em (Hn & Hf). unfold embed_too_big.
    rewrite (Exists_under_Forall field_within_limits field_too_long
               (fun f => length_or_0 (name f) = 256%nat) _ Hf field_too_long_iff_256).
    split; [intros [H | H]; [lia | exact H] | auto].
Qed.

(** A webhook made with the builder methods ([setUsername],
    [setAvatarUrl], [setTTS], [setContent], [addEmbed], [setFile]) from
    embeds made with the [Embed] builder methods always has a content of at
    most 2000 characters and at most 10 embeds, and [validate] rejects it
    exactly when some field name has 256 characters: [Embed] accepts names
    up to 256 characters while [validate] accepts them up to 255. *)
Theorem built_webhook_validate (cs : list WebhookCall) url cfg :
  Forall built_embed (added_embeds cs) ->
  (length_or_0 (content (run_webhook cs (new_Webhook url cfg))) <= 2000)%nat
  /\ (size_or_0 (embeds (run_webhook cs (new_Webhook url cfg))) <= 10)%nat
  /\ ((exists e, validate (run_webhook cs (new_Webhook url cfg)) = Throw e)
      <-> has_name_of_256 (run_webhook cs (new_Webhook url cfg))).
Proof.
  intros Hbuilt.
  assert (Hw : webhook_within_limits (run_webhook cs (new_Webhook url cfg))).
  { apply run_webhook_within_limits.
    - eapply List.Forall_impl; [|exact Hbuilt].
      intros e (ecs & ->). apply run_embed_within_limits, new_Embed_within_limits.
    - repeat split; cbn; try lia. constructor. }
  split; [apply Hw|]. split; [apply Hw|].
  apply validate_within_limits, Hw.
Qed.

(** ** Webhook: sending, reading, modifying, probing *)

Lemma with_client_same (w : Webhook) (c : RequestClient) :
  retryCount c = retryCount (client w) ->
  webhookUrl c = webhookUrl (client w) ->
  retryConfig c = retryConfig (client w) ->
  with_client w c = w.
Proof.
  destruct w as [[u n g] ? ? ? ? ? ?], c as [u' n' g']. cbn.
  intros -> -> ->. reflexivity.
Qed.

(** Sending does not use up the message: when the client's counter is 0
    (as it is after construction and after every [send]), [Webhook.send]
    leaves the webhook exactly as it was, whether it threw, failed or
    succeeded, so a second [send] sends the same payload again. *)
Theorem send_leaves_webhook
    (JSON_stringify : IWebhook -> string) (network : nat -> Request -> Attempt)
    (Math_random : nat -> Q) (w : Webhook) (init : option RequestInit) (world0 : World) :
  retryCount (client w) = 0%nat ->
  exists completion world1,
    Webhook_send JSON_stringify network Math_random w init world0
    = (completion, w, world1).
Proof.
  intros Hcount. unfold Webhook_send.
  destruct (validate w) as [[]|e]; [|eauto].
  destruct (send_fuel_run JSON_stringify network Math_random POST (toObject w) init
              (S (budget (client w))) {| this := client w; world := world0 |}
              (Nat.lt_succ_diag_r _))
    as (r & s' & k & Hrun & Hc & Hu & Hg & _).
  assert (Hsend : send JSON_stringify network Math_random POST (toObject w) init
                    {| this := client w; world := world0 |} = (Some r, s'))
    by exact Hrun.
  rewrite Hsend. exists (Normal (Some r)), (world s').
  rewrite (with_client_same w (this s')); [reflexivity | | exact Hu | exact Hg].
  rewrite Hc, Hcount. reflexivity.
Qed.

Section Management.

Context {Param : Type}.
Variable stringify_param : Param -> string.
Variable stringify_string : string -> string.
Variable network : nat -> Request -> Attempt.
Variable Math_random : nat -> Q.


(** [isValid] makes one bare [fetch] of the URL, with no retry and no wait,
    and answers [true] whenever [fetch] resolves, whatever the status of
    the response (a 404 or a 500 included); it answers [false] only when
    [fetch] throws.  The webhook is left as it was. *)
Theorem isValid_ignores_status (w : Webhook) (world0 : World) :
  exists b world1,
    isValid network w world0 = (b, w, world1)
    /\ requests world1 = plain_request (webhookUrl (client w)) :: requests world0
    /\ sleeps world1 = sleeps world0
    /\ (forall response,
          network (calls world0) (plain_request (webhookUrl (client w))) = Responded response ->
          b = true)
    /\ (forall e,
          network (calls world0) (plain_request (webhookUrl (client w))) = Threw e ->
          b = false).
Proof.
  unfold isValid, fetch. cbn.
  rewrite (with_client_same w (client w)) by reflexivity.
  eexists _, _. split; [reflexivity|]. cbn.
  repeat split.
  - intros response ->. reflexivity.
  - intros e ->. reflexivity.
Qed.

End Management.

(** ** Concrete runs of the further properties *)

Lemma success_short_circuit_witness :
  exists s',
    send Demo.stringify DemoHook.no_content Demo.half POST tt None (Demo.fresh 3)
    = (Some (successResult (Demo.response_of 204 ∅)), s')
    /\ calls (world s') = 1%nat
    /\ retryCount (this s') = 0%nat.
Proof.
  destruct (success_short_circuit Demo.stringify DemoHook.no_content Demo.half
              POST tt None (Demo.fresh 3) (Demo.response_of 204 ∅))
    as (s' & Hrun & Hcalls & _ & _ & Hcount & _).
  - reflexivity.
  - simpl. lia.
  - exists s'. repeat split; assumption.
Defined.

Lemma first_decisive_attempt_witness :
  exists s',
    send Demo.stringify Demo.limited_then_ok Demo.half POST tt None (Demo.fresh 2)
    = (Some (successResult (Demo.response_of 204 ∅)), s')
    /\ calls (world s') = 3%nat
    /\ length (sleeps (world s')) = 2%nat.
Proof.
  destruct (first_decisive_attempt Demo.stringify Demo.limited_then_ok Demo.half
              POST tt None (Demo.fresh 2) 2)
    as (s' & Hrun & Hcalls & Hsleeps & _).
  - vm_compute. lia.
  - intros [|[|j]] Hj; [reflexivity | reflexivity | lia].
  - intros H. vm_compute in H. lia.
  - exists s'. repeat split; assumption.
Defined.

Lemma signal_without_timeout_witness :
  req_signal (make_request Demo.stringify Demo.url POST tt
                (Some {| signal := Some {| aborts_at := Some 10%Q |};
                         headers := None;
                         timeoutMs := Some 0%Q |}))
  = Some {| aborts_at := Some 10%Q |}.
Proof.
  apply (signal_without_timeout Demo.stringify Demo.url POST tt
           (Some {| signal := Some {| aborts_at := Some 10%Q |};
                    headers := None;
                    timeoutMs := Some 0%Q |})).
  reflexivity.
Defined.

Lemma jitter_ten_percent_witness :
  (exponential DEFAULT_RETRY_CONFIG 2 * (9 # 10) <= backoff DEFAULT_RETRY_CONFIG 2 (1 # 4))%Q
  /\ (backoff DEFAULT_RETRY_CONFIG 2 (1 # 4) <= exponential DEFAULT_RETRY_CONFIG 2 * (11 # 10))%Q.
Proof.
  apply (jitter_ten_percent DEFAULT_RETRY_CONFIG 2 (1 # 4)).
  - reflexivity.
  - unfold Qle. simpl. lia.
  - split; unfold Qle; simpl; lia.
Defined.

Lemma doubling_then_cap_witness :
  (exponential DEFAULT_RETRY_CONFIG 3 == 2 * exponential DEFAULT_RETRY_CONFIG 2)%Q
  /\ (exponential DEFAULT_RETRY_CONFIG 9 == 60000)%Q.
Proof.
  destruct (doubling_then_cap DEFAULT_RETRY_CONFIG 2) as [Hdouble _].
  - reflexivity.
  - unfold Qle. simpl. lia.
  - destruct (doubling_then_cap DEFAULT_RETRY_CONFIG 6) as [_ Hcap].
    + reflexivity.
    + unfold Qle. simpl. lia.
    + split.
      * apply Hdouble. unfold Qle. vm_compute. discriminate.
      * apply (Hcap ltac:(unfold Qle; vm_compute; discriminate) 9%nat). lia.
Defined.

Lemma first_retry_waits_twice_base_witness :
  exists s1 wait,
    sleeps (world s1) = [wait]
    /\ ((18 # 10) * 10 <= wait)%Q
    /\ (wait <= (22 # 10) * 10)%Q.
Proof.
  destruct (first_retry_waits_twice_base Demo.stringify
              (Demo.always (Responded (Demo.response_of 500 ∅))) Demo.half
              2 POST tt None (Demo.fresh 2))
    as (s1 & wait & Hz & _ & Hlo & Hhi).
  - reflexivity.
  - simpl. lia.
  - reflexivity.
  - reflexivity.
  - unfold Qle. simpl. lia.
  - split; unfold Qle; simpl; lia.
  - exists s1, wait. repeat split; assumption.
Defined.

Lemma addField_chain_appends_witness :
  or_empty (em_fields (run_embed (map CallAddField DemoEmbed.two_fields) new_Embed))
  = map pushed_field DemoEmbed.two_fields.
Proof.
  destruct (addField_chain_appends DemoEmbed.two_fields new_Embed) as (Hf & _).
  - constructor; [|constructor; [|constructor]];
      (split; eexists; (split; [reflexivity | simpl; lia])).
  - simpl. lia.
  - exact Hf.
Defined.


Example red_is_16711680 :
  color_of (ColorString "#ff0000") = JS.Fin (inject_Z 16711680)
  /\ color_of (ColorString "00ff00") = JS.Fin (inject_Z 65280).
Proof. vm_compute. split; reflexivity. Qed.

Lemma built_webhook_validate_witness :
  snd (addField (FieldParams DemoEmbed.name_256 (Some "Value"%string) None) new_Embed) = None
  /\ exists e,
       validate (run_webhook DemoEmbed.long_name_calls (new_Webhook Demo.url None)) = Throw e.
Proof.
  split; [vm_compute; reflexivity|].
  destruct (built_webhook_validate DemoEmbed.long_name_calls Demo.url None)
    as (_ & _ & Hiff).
  - constructor; [eexists; reflexivity | constructor].
  - apply Hiff. vm_compute.
    apply Exists_cons_hd, Exists_cons_hd. reflexivity.
Defined.

Lemma send_leaves_webhook_witness :
  exists completion world1,
    Webhook_send DemoHook.stringify DemoHook.no_content Demo.half
      (DemoHook.hook "Hello, world!") None Demo.empty_world
    = (completion, DemoHook.hook "Hello, world!", world1).
Proof.
  apply (send_leaves_webhook DemoHook.stringify DemoHook.no_content Demo.half
           (DemoHook.hook "Hello, world!") None Demo.empty_world).
  reflexivity.
Defined.
